(** * Migration pipeline runner and confidence-score calculator

    A shallow embedding of [supabase_migration_orchestrator.py] (class
    [SupabaseMigrationOrchestrator] and [main]) and of
    [tools/summarize.py] (class [BMADValidator]), followed by the
    properties established about them.

    The Python code is effectful: it reads the process environment and
    files, talks to a PostgreSQL server through one psycopg2 connection,
    writes a backup file and logs.  It is embedded in a state-and-exception
    monad over an explicit [world]; the PostgreSQL server, the filesystem
    and the clock are the environment of the program and are modelled as
    components of that world. *)

From Stdlib Require Import String Ascii List ZArith QArith Bool Lia Lqa.
From Stdlib Require Import RelationClasses.
Import ListNotations.
Local Open Scope string_scope.
Local Open Scope list_scope.

(** ** Python values, exceptions and the state-and-exception monad *)

Module Py.

(** Values that travel between the database driver and the program.
    [PDict] is a JSON object as psycopg2 returns it for a json/jsonb
    column (kept as its text), [PDatetime] a [datetime] object, and
    [PJsonText v] the [str] that [json.dumps(v)] returns. *)
Inductive pyval : Type :=
| PNone
| PBool (b : bool)
| PInt (z : Z)
| PStr (s : string)
| PDict (json : string)
| PDatetime (iso : string)
| PJsonText (v : pyval).

Fixpoint pyval_eqb (a b : pyval) : bool :=
  match a, b with
  | PNone, PNone => true
  | PBool x, PBool y => Bool.eqb x y
  | PInt x, PInt y => Z.eqb x y
  | PStr x, PStr y => String.eqb x y
  | PDict x, PDict y => String.eqb x y
  | PDatetime x, PDatetime y => String.eqb x y
  | PJsonText x, PJsonText y => pyval_eqb x y
  | _, _ => false
  end.

(** A row as a Python dict / a database tuple with its column names. *)
Definition row : Type := list (string * pyval).

(** Lookup in a dict represented as an association list. *)
Fixpoint assoc {A : Type} (k : string) (d : list (string * A)) : option A :=
  match d with
  | [] => None
  | (k', v) :: d' => if String.eqb k k' then Some v else assoc k d'
  end.

(** [d[k] = v] : replace the binding of an existing key in place, append a
    new key at the end. *)
Fixpoint assign {A : Type} (k : string) (v : A) (d : list (string * A))
  : list (string * A) :=
  match d with
  | [] => [(k, v)]
  | (k', v') :: d' =>
      if String.eqb k k' then (k, v) :: d' else (k', v') :: assign k v d'
  end.

(** [d.get(k)] and [d.get(k, default)]. *)
Definition get (k : string) (d : row) : pyval :=
  match assoc k d with Some v => v | None => PNone end.

Definition get_default (k : string) (default : pyval) (d : row) : pyval :=
  match assoc k d with Some v => v | None => default end.

(** Exceptions.  All of them but [SystemExit] derive from [Exception]. *)
Inductive exn : Type :=
| ValueError (msg : string) (vars : list string)
| AttributeError
| TypeError
| IndexError
| FileNotFoundError (path : string)
| PermissionError (path : string)
| InterfaceError          (* psycopg2: connection already closed *)
| OperationalError        (* psycopg2: server unreachable *)
| ProgrammingError (msg : string)   (* psycopg2: the statement is rejected *)
| IntegrityError (msg : string)     (* psycopg2: a constraint is violated *)
| SystemExit (code : Z).

Definition is_Exception (e : exn) : bool :=
  match e with SystemExit _ => false | _ => true end.

Inductive result (A : Type) : Type :=
| Ok (a : A)
| Raise (e : exn).
Arguments Ok {A} a.
Arguments Raise {A} e.

(** Computations over a state [St]; the state survives an exception. *)
Definition M (St A : Type) : Type := St -> result A * St.

Definition ret {St A} (a : A) : M St A := fun s => (Ok a, s).

Definition raise {St A} (e : exn) : M St A := fun s => (Raise e, s).

Definition bind {St A B} (m : M St A) (k : A -> M St B) : M St B :=
  fun s =>
    match m s with
    | (Ok a, s') => k a s'
    | (Raise e, s') => (Raise e, s')
    end.

(** [try: body except Exception as e: handler e]. *)
Definition try_except {St A} (body : M St A) (handler : exn -> M St A)
  : M St A :=
  fun s =>
    match body s with
    | (Ok a, s') => (Ok a, s')
    | (Raise e, s') =>
        if is_Exception e then handler e s' else (Raise e, s')
    end.

(** [try: body finally: cleanup]. *)
Definition try_finally {St A} (body : M St A) (cleanup : M St unit)
  : M St A :=
  fun s =>
    match body s with
    | (r, s') =>
        match cleanup s' with
        | (Ok _, s'') => (r, s'')
        | (Raise e, s'') => (Raise e, s'')
        end
    end.

Declare Scope py_scope.
Delimit Scope py_scope with py.
Notation "x <- m ;; k" := (bind m (fun x => k))
  (at level 61, m at next level, right associativity) : py_scope.
Notation "m ;; k" := (bind m (fun _ => k))
  (at level 61, right associativity) : py_scope.

(** [for x in xs: body x]. *)
Fixpoint for_each {St A} (xs : list A) (body : A -> M St unit) : M St unit :=
  match xs with
  | [] => ret tt
  | x :: xs' => bind (body x) (fun _ => for_each xs' body)
  end.

(** A local variable [L] that is mutated in place next to the state. *)
Definition lift {L St A} (m : M St A) : M (L * St) A :=
  fun s => let (r, w') := m (snd s) in (r, (fst s, w')).

Definition get_local {L St} : M (L * St) L := fun s => (Ok (fst s), s).

Definition set_local {L St} (l : L) : M (L * St) unit :=
  fun s => (Ok tt, (l, snd s)).

Definition with_local {L St A} (l0 : L) (m : M (L * St) A) : M St A :=
  fun w => let (r, s') := m (l0, w) in (r, snd s').

(** Truth value of a Python object in a condition. *)
Definition truthy (v : pyval) : bool :=
  match v with
  | PNone => false
  | PBool b => b
  | PInt z => negb (Z.eqb z 0)
  | PStr s => match s with EmptyString => false | _ => true end
  | PDict j => negb (String.eqb j "{}")
  | _ => true
  end.

(** [json.dumps(v)]: a [datetime] is not JSON serialisable. *)
Definition json_dumps (v : pyval) : result pyval :=
  match v with
  | PDatetime _ => Raise TypeError
  | _ => Ok (PJsonText v)
  end.

(** [s.replace(old, new)] for a non-empty [old]: every non-overlapping
    occurrence, leftmost first.  [skip] counts the characters of an
    occurrence still to be dropped. *)
Fixpoint replace_from (skip : nat) (old new s : string) : string :=
  match s with
  | EmptyString => EmptyString
  | String c s' =>
      match skip with
      | S n => replace_from n old new s'
      | O =>
          if String.prefix old s
          then (new ++ replace_from (String.length old - 1) old new s')%string
          else String c (replace_from 0 old new s')
      end
  end.

Definition replace (old new s : string) : string := replace_from 0 old new s.

(** Substring test, Python's [needle in hay] and SQL's
    [LIKE '%needle%']. *)
Fixpoint contains (needle hay : string) : bool :=
  String.prefix needle hay
  || match hay with
     | EmptyString => false
     | String _ hay' => contains needle hay'
     end.

End Py.

(** ** The PostgreSQL server, as far as the program observes it *)

Module Pg.
Import Py.

(** A table: its primary-key column, the further columns that carry a
    UNIQUE constraint, and its rows in insertion order. *)
Record table : Type := {
  tbl_pkey : string;
  tbl_unique : list string;
  tbl_rows : list row
}.

Record database : Type := {
  db_version : string;
  db_available_extensions : list string;      (* pg_available_extensions *)
  db_extensions : list string;                (* pg_extension *)
  db_tables : list (string * table);          (* information_schema.tables *)
  db_functions : list string;                 (* pg_proc *)
  db_indexes : list (string * string);        (* pg_indexes: table, index *)
  db_policies : list (string * string)        (* pg_policies: table, policy *)
}.

(** The statements the program sends, one constructor per SQL text of
    the source. *)
Inductive stmt : Type :=
| SelectVersion                       (* SELECT version(); *)
| SelectAvailableExtension (name : string)
| SelectExtension (name : string)
| SelectTableExists (t : string)
| SelectAllLimit (t : string) (limit : nat)   (* SELECT * FROM t LIMIT n *)
| SelectCount (t : string)
| SelectProcExists (f : string)
| SelectIndexesLike (tables : list string) (infix : string)
| SelectPolicies (tables : list string)
| InsertOnConflictDoNothing (t : string) (target : string) (r : row)
| Script (sql : string).              (* the text of a migration file *)

Definition is_select (s : stmt) : bool :=
  match s with
  | InsertOnConflictDoNothing _ _ _ | Script _ => false
  | _ => true
  end.

Definition mem (x : string) (l : list string) : bool :=
  existsb (String.eqb x) l.

Definition is_null (v : pyval) : bool :=
  match v with PNone => true | _ => false end.

(** Does [r] collide with a stored row on column [c]?  NULLs never
    collide. *)
Definition collides (c : string) (r : row) (rows : list row) : bool :=
  negb (is_null (get c r))
  && existsb (fun r' => pyval_eqb (get c r') (get c r)) rows.

(** [INSERT INTO t (...) VALUES (...) ON CONFLICT (target) DO NOTHING]:
    the target must carry a unique index; the primary key may not be
    NULL; a collision on the target is a no-op; a collision on another
    unique index is an error; otherwise the row is appended. *)
Definition insert_on_conflict_do_nothing (target : string) (r : row)
  (t : table) : result table :=
  if negb (mem target (tbl_pkey t :: tbl_unique t)) then
    Raise (ProgrammingError "no unique constraint matching ON CONFLICT")
  else if is_null (get (tbl_pkey t) r) then
    Raise (IntegrityError "null value in primary key")
  else if collides target r (tbl_rows t) then Ok t
  else if existsb (fun c => collides c r (tbl_rows t))
                  (tbl_pkey t :: tbl_unique t) then
    Raise (IntegrityError "duplicate key value")
  else
    Ok {| tbl_pkey := tbl_pkey t; tbl_unique := tbl_unique t;
          tbl_rows := tbl_rows t ++ [r] |}.

Definition set_tables (ts : list (string * table)) (db : database)
  : database :=
  {| db_version := db_version db;
     db_available_extensions := db_available_extensions db;
     db_extensions := db_extensions db;
     db_tables := ts;
     db_functions := db_functions db;
     db_indexes := db_indexes db;
     db_policies := db_policies db |}.

(** The server: where it listens, whether it answers, its database, and
    how it runs the text of a migration file (its success and the
    database it leaves behind). *)
Record server : Type := {
  srv_dsn : string;
  srv_up : bool;
  srv_db : database;
  srv_script : string -> database -> bool * database
}.

Definition set_db (db : database) (s : server) : server :=
  {| srv_dsn := srv_dsn s; srv_up := srv_up s; srv_db := db;
     srv_script := srv_script s |}.

(** Running one statement on a server that answers: the result set and
    the server afterwards, or the error. *)
Definition run_stmt (s : stmt) (srv : server) : result (list row) * server :=
  let db := srv_db srv in
  match s with
  | SelectVersion => (Ok [[("version", PStr (db_version db))]], srv)
  | SelectAvailableExtension n =>
      (Ok (if mem n (db_available_extensions db)
           then [[("name", PStr n)]] else []), srv)
  | SelectExtension n =>
      (Ok (if mem n (db_extensions db)
           then [[("extname", PStr n)]] else []), srv)
  | SelectTableExists t =>
      (Ok [[("exists", PBool (mem t (map fst (db_tables db))))]], srv)
  | SelectAllLimit t n =>
      match assoc t (db_tables db) with
      | Some tb => (Ok (firstn n (tbl_rows tb)), srv)
      | None => (Raise (ProgrammingError "relation does not exist"), srv)
      end
  | SelectCount t =>
      match assoc t (db_tables db) with
      | Some tb =>
          (Ok [[("count", PInt (Z.of_nat (List.length (tbl_rows tb))))]], srv)
      | None => (Raise (ProgrammingError "relation does not exist"), srv)
      end
  | SelectProcExists f =>
      (Ok [[("exists", PBool (mem f (db_functions db)))]], srv)
  | SelectIndexesLike ts infix =>
      (Ok (map (fun ti => [("indexname", PStr (snd ti))])
               (filter (fun ti => mem (fst ti) ts && contains infix (snd ti))
                       (db_indexes db))), srv)
  | SelectPolicies ts =>
      (Ok (map (fun tp => [("tablename", PStr (fst tp));
                           ("policyname", PStr (snd tp))])
               (filter (fun tp => mem (fst tp) ts) (db_policies db))), srv)
  | InsertOnConflictDoNothing t target r =>
      match assoc t (db_tables db) with
      | None => (Raise (ProgrammingError "relation does not exist"), srv)
      | Some tb =>
          match insert_on_conflict_do_nothing target r tb with
          | Ok tb' =>
              (Ok [], set_db (set_tables (assign t tb' (db_tables db)) db) srv)
          | Raise e => (Raise e, srv)
          end
      end
  | Script sql =>
      match srv_script srv sql db with
      | (true, db') => (Ok [], set_db db' srv)
      | (false, db') =>
          (Raise (ProgrammingError "migration script failed"), set_db db' srv)
      end
  end.

End Pg.

(** ** [supabase_migration_orchestrator.py] *)

Module Orchestrator.
Import Py Pg.
Local Open Scope py_scope.

(** The dict built by [backup_existing_data]: the ['timestamp'] entry and
    the entries keyed by table name. *)
Record backup_data : Type := {
  bd_timestamp : string;
  bd_tables : list (string * list row)
}.

(** The dict built by [validate_migration]. *)
Record validation_results : Type := {
  pgvector_enabled : bool;
  tables_created : list string;
  functions_created : list string;
  indexes_created : list pyval;
  data_migrated : list (string * pyval);
  rls_policies : list (pyval * pyval)
}.

(** The attribute [self.db_connection]. *)
Inductive conn_state : Type := Unset | Open | Closed.

(** What the program asks of the database, in order. *)
Inductive db_op : Type :=
| OpConnect (url : string)
| OpExecute (s : stmt)
| OpClose.

(** One constructor per [logger] call of the source, with the values
    interpolated in its message. *)
Inductive log_entry : Type :=
| LEnvMissing (vars : list string)
| LEnvOk
| LConnectionsEstablished
| LConnectionSetupFailed (e : exn)
| LConnectionOk (version : pyval)
| LConnectionFailed (e : exn)
| LVectorAvailable
| LVectorNotAvailable
| LVectorError (e : exn)
| LExecuting (path : string)
| LMigrationCompleted (path : string)
| LMigrationFailed (path : string) (e : exn)
| LBackedUp (n : nat) (table : string)
| LTableSkipped (table : string)
| LBackupWarning (table : string) (e : exn)
| LBackupSaved (file : string)
| LBackupFailed (e : exn)
| LMigratingEmbeddings
| LMigratedDocuments (n : nat)
| LMigratedSessions (n : nat)
| LEmbeddingMigrationFailed (e : exn)
| LValidationCompleted
| LValidationFailed (e : exn)
| LStarting
| LRule
| LPhase (n : nat)
| LVectorCannotProceed
| LMigrationFailedAt (path : string)
| LDataMigrationIssues
| LSummaryVector (enabled : bool)
| LSummaryTables (n : nat)
| LSummaryFunctions (n : nat)
| LSummaryIndexes (n : nat)
| LSummaryPolicies (n : nat)
| LSummaryCount (table : string) (count : pyval)
| LCompletedSuccessfully
| LOrchestratorFailed (e : exn).

Inductive level : Type := INFO | WARNING | ERROR.

Definition level_of (l : log_entry) : level :=
  match l with
  | LEnvMissing _ | LConnectionSetupFailed _ | LConnectionFailed _
  | LVectorNotAvailable | LVectorError _ | LMigrationFailed _ _
  | LBackupFailed _ | LEmbeddingMigrationFailed _ | LValidationFailed _
  | LVectorCannotProceed | LMigrationFailedAt _ | LOrchestratorFailed _ =>
      ERROR
  | LBackupWarning _ _ | LDataMigrationIssues => WARNING
  | _ => INFO
  end.

(** [datetime.now()], rendered by [isoformat()] and by
    [strftime('%Y%m%d_%H%M%S')]; time does not advance within a run. *)
Record clock : Type := {
  now_isoformat : string;
  now_stamp : string
}.

Record world : Type := {
  environ : list (string * string);        (* os.environ *)
  dotenv : list (string * string);         (* the bindings of the .env file *)
  files : list (string * string);          (* readable files and their text *)
  fs_writable : bool;                      (* can files be created? *)
  written : list (string * backup_data);   (* backup files written, in order *)
  now : clock;
  server : Pg.server;
  conn : conn_state;
  ops : list db_op;                        (* history of database operations *)
  log : list log_entry;                    (* history of log records *)
  stdout : list string
}.

Definition set_environ (x : list (string * string)) (w : world) : world :=
  {| environ := x; dotenv := dotenv w; files := files w;
     fs_writable := fs_writable w; written := written w; now := now w;
     server := server w; conn := conn w; ops := ops w; log := log w;
     stdout := stdout w |}.

Definition set_written (x : list (string * backup_data)) (w : world)
  : world :=
  {| environ := environ w; dotenv := dotenv w; files := files w;
     fs_writable := fs_writable w; written := x; now := now w;
     server := server w; conn := conn w; ops := ops w; log := log w;
     stdout := stdout w |}.

Definition set_server (x : Pg.server) (w : world) : world :=
  {| environ := environ w; dotenv := dotenv w; files := files w;
     fs_writable := fs_writable w; written := written w; now := now w;
     server := x; conn := conn w; ops := ops w; log := log w;
     stdout := stdout w |}.

Definition set_conn (x : conn_state) (w : world) : world :=
  {| environ := environ w; dotenv := dotenv w; files := files w;
     fs_writable := fs_writable w; written := written w; now := now w;
     server := server w; conn := x; ops := ops w; log := log w;
     stdout := stdout w |}.

Definition set_ops (x : list db_op) (w : world) : world :=
  {| environ := environ w; dotenv := dotenv w; files := files w;
     fs_writable := fs_writable w; written := written w; now := now w;
     server := server w; conn := conn w; ops := x; log := log w;
     stdout := stdout w |}.

Definition set_log (x : list log_entry) (w : world) : world :=
  {| environ := environ w; dotenv := dotenv w; files := files w;
     fs_writable := fs_writable w; written := written w; now := now w;
     server := server w; conn := conn w; ops := ops w; log := x;
     stdout := stdout w |}.

Definition set_stdout (x : list string) (w : world) : world :=
  {| environ := environ w; dotenv := dotenv w; files := files w;
     fs_writable := fs_writable w; written := written w; now := now w;
     server := server w; conn := conn w; ops := ops w; log := log w;
     stdout := x |}.

(** *** Primitive operations *)

Definition logger (l : log_entry) : M world unit :=
  fun w => (Ok tt, set_log (log w ++ [l]) w).

Definition print (s : string) : M world unit :=
  fun w => (Ok tt, set_stdout (stdout w ++ [s]) w).

Definition sys_exit {A} (code : Z) : M world A := raise (SystemExit code).

(** [os.getenv(var)]. *)
Definition getenv (var : string) : M world (option string) :=
  fun w => (Ok (assoc var (environ w)), w).

(** [load_dotenv()]: the bindings of the .env file that the environment
    does not have yet are added to it. *)
Definition load_dotenv : M world unit :=
  fun w =>
    (Ok tt,
     set_environ
       (environ w ++
        filter (fun kv => negb (mem (fst kv) (map fst (environ w))))
               (dotenv w)) w).

Definition datetime_now : M world clock := fun w => (Ok (now w), w).

(** [with open(path, 'r') as file: file.read()]. *)
Definition read_file (path : string) : M world string :=
  fun w =>
    match assoc path (files w) with
    | Some text => (Ok text, w)
    | None => (Raise (FileNotFoundError path), w)
    end.

(** [os.makedirs(..., exist_ok=True)], [open(path, 'w')] and
    [json.dump(data, f, indent=2, default=str)]. *)
Definition write_json (path : string) (data : backup_data) : M world unit :=
  fun w =>
    if fs_writable w
    then (Ok tt, set_written (written w ++ [(path, data)]) w)
    else (Raise (PermissionError path), w).

(** [psycopg2.connect(url)]. *)
Definition connect (url : string) : M world unit :=
  fun w =>
    let w' := set_ops (ops w ++ [OpConnect url]) w in
    if srv_up (server w) && String.eqb url (srv_dsn (server w))
    then (Ok tt, set_conn Open w')
    else (Raise OperationalError, w').

(** [self.db_connection.cursor()]. *)
Definition cursor : M world unit :=
  fun w =>
    match conn w with
    | Open => (Ok tt, w)
    | Closed => (Raise InterfaceError, w)
    | Unset => (Raise AttributeError, w)
    end.

(** [cursor.execute(statement)] on a connection in autocommit mode. *)
Definition execute (s : stmt) : M world (list row) :=
  fun w =>
    let w' := set_ops (ops w ++ [OpExecute s]) w in
    if srv_up (server w)
    then let (r, srv') := run_stmt s (server w) in (r, set_server srv' w')
    else (Raise OperationalError, w').

(** [if hasattr(self, 'db_connection'): self.db_connection.close()]. *)
Definition close_connection : M world unit :=
  fun w =>
    match conn w with
    | Unset => (Ok tt, w)
    | _ => (Ok tt, set_conn Closed (set_ops (ops w ++ [OpClose]) w))
    end.

(** [cursor.fetchone()] after a statement that returned [rs]. *)
Definition fetchone (rs : list row) : option row := hd_error rs.

(** [cursor.fetchone()[0]]. *)
Definition fetchone_0 {St} (rs : list row) : M St pyval :=
  match fetchone rs with
  | None => raise TypeError
  | Some [] => raise IndexError
  | Some ((_, v) :: _) => ret v
  end.

(** [row[0]] and [row[1]] of a fetched row. *)
Definition column (i : nat) (r : row) : result pyval :=
  match nth_error r i with
  | Some (_, v) => Ok v
  | None => Raise IndexError
  end.

Definition of_result {St A} (r : result A) : M St A := fun s => (r, s).

(** *** The methods of [SupabaseMigrationOrchestrator] *)

Definition required_vars : list string :=
  ["NEXT_PUBLIC_SUPABASE_URL"; "NEXT_PUBLIC_SUPABASE_ANON_KEY";
   "SUPABASE_SERVICE_ROLE_KEY"; "OPENAI_API_KEY"].

(** [not os.getenv(var)]: the variable is unset or set to the empty
    string. *)
Definition not_getenv (var : string) (w : world) : bool :=
  match assoc var (environ w) with
  | None => true
  | Some EmptyString => true
  | Some (String _ _) => false
  end.

Definition validate_environment : M world unit :=
  fun w =>
    let missing_vars := filter (fun var => not_getenv var w) required_vars in
    match missing_vars with
    | _ :: _ =>
        (logger (LEnvMissing missing_vars);;
         raise (ValueError "Missing environment variables" missing_vars)) w
    | [] => logger LEnvOk w
    end.

Definition setup_connections : M world unit :=
  try_except
    (supabase_url <- getenv "NEXT_PUBLIC_SUPABASE_URL";;
     service_role_key <- getenv "SUPABASE_SERVICE_ROLE_KEY";;
     match supabase_url with
     | None => raise AttributeError
     | Some url =>
         let db_url := replace "https://" "postgresql://postgres:" url in
         let db_url :=
           replace ".supabase.co" ".supabase.co:5432/postgres" db_url in
         let db_url := (db_url ++ "?sslmode=require")%string in
         connect db_url;;
         logger LConnectionsEstablished
     end)
    (fun e => logger (LConnectionSetupFailed e);; raise e).

(** [__init__]. *)
Definition init : M world unit :=
  load_dotenv;; validate_environment;; setup_connections.

Definition test_supabase_connection : M world bool :=
  try_except
    (cursor;;
     rs <- execute SelectVersion;;
     version <- fetchone_0 rs;;
     logger (LConnectionOk version);;
     ret true)
    (fun e => logger (LConnectionFailed e);; ret false).

Definition check_pgvector_extension : M world bool :=
  try_except
    (cursor;;
     rs <- execute (SelectAvailableExtension "vector");;
     match fetchone rs with
     | Some (_ :: _) => logger LVectorAvailable;; ret true
     | _ => logger LVectorNotAvailable;; ret false
     end)
    (fun e => logger (LVectorError e);; ret false).

Definition execute_migration_file (file_path : string) : M world bool :=
  try_except
    (logger (LExecuting file_path);;
     sql_content <- read_file file_path;;
     cursor;;
     execute (Script sql_content);;
     logger (LMigrationCompleted file_path);;
     ret true)
    (fun e => logger (LMigrationFailed file_path e);; ret false).

Definition tables_to_backup : list (string * stmt) :=
  [("rag_documents", SelectAllLimit "rag_documents" 1000);
   ("user_sessions", SelectAllLimit "user_sessions" 1000);
   ("conversation_messages", SelectAllLimit "conversation_messages" 1000)].

Definition set_rows (table_name : string) (rows : list row)
  (b : backup_data) : backup_data :=
  {| bd_timestamp := bd_timestamp b;
     bd_tables := assign table_name rows (bd_tables b) |}.

(** The body of the loop of [backup_existing_data], with its own
    [try]/[except]. *)
Definition backup_table (tq : string * stmt) : M (backup_data * world) unit :=
  let (table_name, query) := tq in
  try_except
    (rs <- lift (execute (SelectTableExists table_name));;
     table_exists <- fetchone_0 rs;;
     if truthy table_exists then
       rows <- lift (execute query);;
       backup_data <- get_local;;
       set_local (set_rows table_name rows backup_data);;
       lift (logger (LBackedUp (List.length rows) table_name))
     else
       lift (logger (LTableSkipped table_name)))
    (fun e => lift (logger (LBackupWarning table_name e))).

(** [backup_data] is a local dict that the loop mutates in place; both
    [return] statements return it as it stands. *)
Definition backup_existing_data : M world backup_data :=
  t <- datetime_now;;
  with_local
    {| bd_timestamp := now_isoformat t;
       bd_tables := [("rag_documents", []); ("user_sessions", []);
                     ("conversation_messages", [])] |}
    (try_except
       (lift cursor;;
        for_each tables_to_backup backup_table;;
        t' <- lift datetime_now;;
        let backup_file :=
          ("supabase_migration_backup/backup_" ++ now_stamp t' ++ ".json")%string
        in
        backup_data <- get_local;;
        lift (write_json backup_file backup_data);;
        lift (logger (LBackupSaved backup_file));;
        get_local)
       (fun e => lift (logger (LBackupFailed e));; get_local)).

(** The parameter tuples of the two INSERT statements, with the column
    each parameter goes to. *)
Definition rag_document_params (doc : row) : result row :=
  match json_dumps (get_default "metadata" (PDict "{}") doc) with
  | Raise e => Raise e
  | Ok metadata =>
      Ok [("id", get "id" doc);
          ("title", get "title" doc);
          ("content", get "content" doc);
          ("source_url", get "source_url" doc);
          ("source_type", get_default "source_type" (PStr "article") doc);
          ("embedding", get "embedding" doc);
          ("metadata", metadata);
          ("created_at", get "created_at" doc);
          ("updated_at", get "updated_at" doc)]
  end.

Definition user_session_params (session : row) : result row :=
  match json_dumps (get_default "metadata" (PDict "{}") session) with
  | Raise e => Raise e
  | Ok metadata =>
      Ok [("id", get "id" session);
          ("user_id", get "user_id" session);
          ("session_id", get "session_id" session);
          ("session_type",
            get_default "session_type" (PStr "health_consultation") session);
          ("started_at", get "started_at" session);
          ("last_activity", get "last_activity" session);
          ("is_active", get_default "is_active" (PBool true) session);
          ("metadata", metadata)]
  end.

(** [backup_data.get(key)] as a condition and as the list iterated. *)
Definition rows_of (key : string) (b : backup_data) : list row :=
  match assoc key (bd_tables b) with
  | Some rows => rows
  | None => []
  end.

Definition insert_document (doc : row) : M world unit :=
  params <- of_result (rag_document_params doc);;
  execute (InsertOnConflictDoNothing "rag_documents" "id" params);;
  ret tt.

Definition insert_session (session : row) : M world unit :=
  params <- of_result (user_session_params session);;
  execute (InsertOnConflictDoNothing "user_sessions" "session_id" params);;
  ret tt.

Definition migrate_existing_embeddings (b : backup_data) : M world bool :=
  try_except
    (logger LMigratingEmbeddings;;
     match rows_of "rag_documents" b with
     | [] => ret tt
     | docs =>
         cursor;;
         for_each docs insert_document;;
         logger (LMigratedDocuments (List.length docs))
     end;;
     match rows_of "user_sessions" b with
     | [] => ret tt
     | sessions =>
         cursor;;
         for_each sessions insert_session;;
         logger (LMigratedSessions (List.length sessions))
     end;;
     ret true)
    (fun e => logger (LEmbeddingMigrationFailed e);; ret false).

Definition expected_tables : list string :=
  ["rag_documents"; "rag_query_logs"; "rag_feedback"; "user_sessions";
   "conversation_messages"; "memory_summaries"; "user_context"].

Definition expected_functions : list string :=
  ["search_rag_documents"; "search_conversation_memory";
   "get_user_context_similarity"; "log_rag_query"].

Definition update_results
  (f : validation_results -> validation_results)
  : M (validation_results * world) unit :=
  r <- get_local;; set_local (f r).

Definition with_pgvector (b : bool) (r : validation_results) :=
  {| pgvector_enabled := b; tables_created := tables_created r;
     functions_created := functions_created r;
     indexes_created := indexes_created r;
     data_migrated := data_migrated r; rls_policies := rls_policies r |}.

Definition with_table (t : string) (r : validation_results) :=
  {| pgvector_enabled := pgvector_enabled r;
     tables_created := tables_created r ++ [t];
     functions_created := functions_created r;
     indexes_created := indexes_created r;
     data_migrated := data_migrated r; rls_policies := rls_policies r |}.

Definition with_count (t : string) (count : pyval) (r : validation_results) :=
  {| pgvector_enabled := pgvector_enabled r;
     tables_created := tables_created r;
     functions_created := functions_created r;
     indexes_created := indexes_created r;
     data_migrated := assign t count (data_migrated r);
     rls_policies := rls_policies r |}.

Definition with_function (f : string) (r : validation_results) :=
  {| pgvector_enabled := pgvector_enabled r;
     tables_created := tables_created r;
     functions_created := functions_created r ++ [f];
     indexes_created := indexes_created r;
     data_migrated := data_migrated r; rls_policies := rls_policies r |}.

Definition with_indexes (l : list pyval) (r : validation_results) :=
  {| pgvector_enabled := pgvector_enabled r;
     tables_created := tables_created r;
     functions_created := functions_created r;
     indexes_created := l;
     data_migrated := data_migrated r; rls_policies := rls_policies r |}.

Definition with_policies (l : list (pyval * pyval)) (r : validation_results) :=
  {| pgvector_enabled := pgvector_enabled r;
     tables_created := tables_created r;
     functions_created := functions_created r;
     indexes_created := indexes_created r;
     data_migrated := data_migrated r; rls_policies := l |}.

(** A list comprehension whose element expression may raise. *)
Fixpoint comprehension {St A B} (f : A -> result B) (xs : list A)
  : M St (list B) :=
  match xs with
  | [] => ret []
  | x :: xs' =>
      y <- of_result (f x);; ys <- comprehension f xs';; ret (y :: ys)
  end.

Definition check_table (table : string)
  : M (validation_results * world) unit :=
  rs <- lift (execute (SelectTableExists table));;
  present <- fetchone_0 rs;;
  if truthy present then
    update_results (with_table table);;
    rs <- lift (execute (SelectCount table));;
    count <- fetchone_0 rs;;
    update_results (with_count table count)
  else ret tt.

Definition check_function (func : string)
  : M (validation_results * world) unit :=
  rs <- lift (execute (SelectProcExists func));;
  present <- fetchone_0 rs;;
  if truthy present then update_results (with_function func) else ret tt.

Definition policy_of (r : row) : result (pyval * pyval) :=
  match column 0 r, column 1 r with
  | Ok t, Ok p => Ok (t, p)
  | Raise e, _ | _, Raise e => Raise e
  end.

(** [validation_results] is a local dict mutated in place; both [return]
    statements return it as it stands. *)
Definition validate_migration : M world validation_results :=
  with_local
    {| pgvector_enabled := false; tables_created := [];
       functions_created := []; indexes_created := [];
       data_migrated := []; rls_policies := [] |}
    (try_except
       (lift cursor;;
        rs <- lift (execute (SelectExtension "vector"));;
        update_results
          (with_pgvector
             (match fetchone rs with Some (_ :: _) => true | _ => false end));;
        for_each expected_tables check_table;;
        for_each expected_functions check_function;;
        rs <- lift (execute
                      (SelectIndexesLike
                         ["rag_documents"; "conversation_messages";
                          "memory_summaries"] "embedding"));;
        indexes <- comprehension (column 0) rs;;
        update_results (with_indexes indexes);;
        rs <- lift (execute
                      (SelectPolicies
                         ["rag_documents"; "user_sessions";
                          "conversation_messages"]));;
        policies <- comprehension policy_of rs;;
        update_results (with_policies policies);;
        lift (logger LValidationCompleted);;
        get_local)
       (fun e => lift (logger (LValidationFailed e));; get_local)).

Definition migration_files : list string :=
  ["migrations/000_add_pgvector.sql";
   "migrations/001_create_rag_schema.sql";
   "migrations/002_create_memory_schema.sql";
   "migrations/003_create_functions.sql"].

(** The loop over the migration files; [false] stands for the [return
    False] in its body, [true] for the loop running to its end. *)
Fixpoint schema_migration (fs : list string) : M world bool :=
  match fs with
  | [] => ret true
  | migration_file :: rest =>
      ok <- execute_migration_file migration_file;;
      if negb ok then logger (LMigrationFailedAt migration_file);; ret false
      else schema_migration rest
  end.

Definition run_migration : M world bool :=
  logger LStarting;;
  logger LRule;;
  try_finally
    (try_except
       (logger (LPhase 1);;
        ok <- test_supabase_connection;;
        if negb ok then ret false else
        ok <- check_pgvector_extension;;
        if negb ok then logger LVectorCannotProceed;; ret false else
        logger (LPhase 2);;
        backup_data <- backup_existing_data;;
        logger (LPhase 3);;
        ok <- schema_migration migration_files;;
        if negb ok then ret false else
        logger (LPhase 4);;
        ok <- migrate_existing_embeddings backup_data;;
        (if negb ok then logger LDataMigrationIssues else ret tt);;
        logger (LPhase 5);;
        validation_results <- validate_migration;;
        logger (LPhase 6);;
        logger (LSummaryVector (pgvector_enabled validation_results));;
        logger (LSummaryTables
                  (List.length (tables_created validation_results)));;
        logger (LSummaryFunctions
                  (List.length (functions_created validation_results)));;
        logger (LSummaryIndexes
                  (List.length (indexes_created validation_results)));;
        logger (LSummaryPolicies
                  (List.length (rls_policies validation_results)));;
        for_each (data_migrated validation_results)
          (fun tc => logger (LSummaryCount (fst tc) (snd tc)));;
        logger LRule;;
        logger LCompletedSuccessfully;;
        logger LRule;;
        ret true)
       (fun e => logger (LOrchestratorFailed e);; ret false))
    close_connection.

(** [main]: [sys.exit] raises [SystemExit], which [except Exception]
    does not catch. *)
Definition main : M world unit :=
  try_except
    (init;;
     success <- run_migration;;
     if success then
       print "BMAD SUPABASE MIGRATION COMPLETED SUCCESSFULLY!";;
       print "Your Supabase instance is now ready for production RAG operations.";;
       sys_exit 0
     else
       print "MIGRATION FAILED - Check logs for details";;
       sys_exit 1)
    (fun e => print "CRITICAL ERROR";; sys_exit 1).

(** The exit status of the process that runs [main]: the code of a
    [SystemExit], 0 when [main] returns, 1 for an uncaught exception. *)
Definition exit_code (w : world) : Z :=
  match fst (main w) with
  | Ok _ => 0
  | Raise (SystemExit code) => code
  | Raise _ => 1
  end.

End Orchestrator.

(** ** [tools/summarize.py] *)

Module Summarize.
Import Py.
Local Open Scope Q_scope.

(** *** Text and regular-expression helpers

    File contents are ASCII text.  Python floats are modelled by exact
    rationals. *)

Definition newline : ascii := "010"%char.

(** [s.split('\n')]. *)
Fixpoint split_lines (s : string) : list string :=
  match s with
  | EmptyString => [EmptyString]
  | String c s' =>
      if Ascii.eqb c newline then EmptyString :: split_lines s'
      else match split_lines s' with
           | [] => [String c EmptyString]
           | l :: ls => String c l :: ls
           end
  end.

Definition lower_char (c : ascii) : ascii :=
  let n := nat_of_ascii c in
  if (65 <=? n)%nat && (n <=? 90)%nat then ascii_of_nat (n + 32) else c.

(** [s.lower()]. *)
Fixpoint lower (s : string) : string :=
  match s with
  | EmptyString => EmptyString
  | String c s' => String (lower_char c) (lower s')
  end.

(** The character classes [\d] and [[\d.]]. *)
Definition is_digit (c : ascii) : bool :=
  let n := nat_of_ascii c in (48 <=? n)%nat && (n <=? 57)%nat.

Definition is_digit_or_dot (c : ascii) : bool :=
  is_digit c || Ascii.eqb c "."%char.

(** The longest prefix of [s] in the class [cls], and what follows it. *)
Fixpoint span (cls : ascii -> bool) (s : string) : string * string :=
  match s with
  | EmptyString => (EmptyString, EmptyString)
  | String c s' =>
      if cls c then let (run, rest) := span cls s' in (String c run, rest)
      else (EmptyString, s)
  end.

Fixpoint drop (n : nat) (s : string) : string :=
  match n, s with
  | S n', String _ s' => drop n' s'
  | _, _ => s
  end.

(** A pattern anchored at the start of the text: the text of its group
    when it matches there. *)
Definition anchored : Type := string -> option string.

(** [re.search]: the leftmost position at which the pattern matches. *)
Fixpoint re_search (pat : anchored) (s : string) : option string :=
  match pat s with
  | Some g => Some g
  | None =>
      match s with
      | EmptyString => None
      | String _ s' => re_search pat s'
      end
  end.

(** [key(cls+)], the group being the run in [cls]. *)
Definition key_run (key : string) (cls : ascii -> bool) : anchored :=
  fun s =>
    if String.prefix key s then
      match span cls (drop (String.length key) s) with
      | (EmptyString, _) => None
      | (run, _) => Some run
      end
    else None.

(** [key.*?tail]: after [key], the nearest position on the same line at
    which [tail] matches. *)
Fixpoint lazy_dots (tail : anchored) (s : string) : option string :=
  match tail s with
  | Some g => Some g
  | None =>
      match s with
      | EmptyString => None
      | String c s' =>
          if Ascii.eqb c newline then None else lazy_dots tail s'
      end
  end.

Definition key_then (key : string) (tail : anchored) : anchored :=
  fun s =>
    if String.prefix key s then lazy_dots tail (drop (String.length key) s)
    else None.

(** [label([\d.]+)ms]. *)
Definition millis (label : string) : anchored :=
  fun s =>
    if String.prefix label s then
      match span is_digit_or_dot (drop (String.length label) s) with
      | (EmptyString, _) => None
      | (run, rest) => if String.prefix "ms" rest then Some run else None
      end
    else None.

(** [(\d+\.\d+)%]. *)
Definition percentage : anchored :=
  fun s =>
    match span is_digit s with
    | (EmptyString, _) => None
    | (whole, String "." rest) =>
        match span is_digit rest with
        | (EmptyString, _) => None
        | (frac, rest') =>
            if String.prefix "%" rest'
            then Some (whole ++ "." ++ frac)%string else None
        end
    | _ => None
    end.

(** The value of a run of decimal digits. *)
Fixpoint digits_value (acc : Z) (s : string) : Z :=
  match s with
  | EmptyString => acc
  | String c s' =>
      digits_value (10 * acc + Z.of_nat (nat_of_ascii c - 48)) s'
  end.

(** [float(s)] for a text in [[\d.]+]: [None] stands for [ValueError]
    (no digit, or more than one dot). *)
Definition float (s : string) : option Q :=
  match span is_digit s with
  | (whole, EmptyString) =>
      match whole with
      | EmptyString => None
      | _ => Some (inject_Z (digits_value 0 whole))
      end
  | (whole, String c rest) =>
      match span is_digit rest with
      | (frac, EmptyString) =>
          match (whole ++ frac)%string with
          | EmptyString => None
          | ds =>
              if Ascii.eqb c "."%char then
                Some (Qmake (digits_value 0 ds)
                            (Z.to_pos (10 ^ Z.of_nat (String.length frac))))
              else None
          end
      | _ => None
      end
  end.

(** Python's [min(a, b)]. *)
Definition py_min (a b : Q) : Q := if Qle_bool a b then a else b.

Definition Qlt_bool (a b : Q) : bool := negb (Qle_bool b a).

(** [len(xs)] as a float operand. *)
Definition len {A} (xs : list A) : Q := inject_Z (Z.of_nat (List.length xs)).

(** *** The input files

    A JSON document as [json.load] returns it. *)
Unset Elimination Schemes.
Inductive json : Type :=
| JNull
| JBool (b : bool)
| JNum (q : Q)
| JStr (s : string)
| JArr (items : list json)
| JObj (members : list (string * json)).
Set Elimination Schemes.

(** The files of [results_dir]: [None] when [open] raises.  The JSON
    file is given by its parse, [Some None] when [json.load] raises. *)
Record results_dir : Type := {
  deployment_accessibility_txt : option string;
  api_endpoints_txt : option string;
  security_headers_txt : option string;
  security_headers_raw_txt : option string;
  hipaa_tests_json : option (option json);
  hipaa_endpoints_txt : option string;
  performance_output_txt : option string;
  integration_tests_txt : option string
}.

(** Truth value of a JSON value in a condition. *)
Definition json_truthy (j : json) : bool :=
  match j with
  | JNull => false
  | JBool b => b
  | JNum q => negb (Qeq_bool q 0)
  | JStr EmptyString => false
  | JStr _ => true
  | JArr [] => false
  | JArr _ => true
  | JObj [] => false
  | JObj _ => true
  end.

(** A JSON value as an operand of [/]: [None] stands for [TypeError]. *)
Definition json_number (j : json) : option Q :=
  match j with
  | JNum q => Some q
  | JBool true => Some 1
  | JBool false => Some 0
  | _ => None
  end.

(** Does [for test in test_results: test.get(...)] run through?  The
    value must be iterable and every item a dict. *)
Definition is_dict (j : json) : bool :=
  match j with JObj _ => true | _ => false end.

Definition test_results_iterable (j : json) : bool :=
  match j with
  | JArr items => forallb is_dict items
  | JStr EmptyString => true
  | JObj [] => true
  | _ => false
  end.

(** *** The analyzers of [BMADValidator]

    Each returns the score of its category; [None] inside stands for an
    exception on its way to the enclosing handler.  The report lines
    ([details]) are not modelled: they do not enter the score. *)

Definition endpoint_ok (line : string) : bool :=
  contains "STATUS:200" line || contains "STATUS:401" line.

Definition analyze_deployment_results (d : results_dir) : Q :=
  let attempt : option Q :=
    match deployment_accessibility_txt d with
    | None => None
    | Some content =>
        let http_status := re_search (key_run "HTTP_STATUS:" is_digit) content in
        let time_total :=
          re_search (key_run "TIME_TOTAL:" is_digit_or_dot) content in
        let deployment_score :=
          match http_status with
          | Some status =>
              if String.eqb status "200" || String.eqb status "401"
              then 0 + 50 else 0
          | None => 0
          end in
        let fast : option bool :=
          match time_total with
          | None => Some false
          | Some t =>
              match float t with
              | Some x => Some (Qlt_bool x 2)
              | None => None
              end
          end in
        match fast with
        | None => None
        | Some fast =>
            let deployment_score :=
              if fast then deployment_score + 25 else deployment_score in
            match api_endpoints_txt d with
            | None => None
            | Some api_content =>
                let api_lines :=
                  filter (contains "ENDPOINT:") (split_lines api_content) in
                let successful_apis := len (filter endpoint_ok api_lines) in
                let total_apis := len api_lines in
                let deployment_score :=
                  if Qlt_bool 0 total_apis then
                    let api_success_rate :=
                      (successful_apis / total_apis) * 100 in
                    deployment_score + (api_success_rate / 100) * 25
                  else deployment_score in
                Some (py_min deployment_score 100)
            end
        end
    end in
  match attempt with Some score => score | None => 0 end.

Definition analyze_security_results (d : results_dir) : Q :=
  let attempt : option Q :=
    match security_headers_txt d with
    | None => None
    | Some content =>
        let header_lines :=
          filter (contains "HEADER:") (split_lines content) in
        let present_headers :=
          len (filter (contains "STATUS:PRESENT") header_lines) in
        let total_headers := len header_lines in
        let base_score :=
          if Qlt_bool 0 total_headers
          then (present_headers / total_headers) * 60 else 0 in
        let security_features_score := 40 in
        match security_headers_raw_txt d with
        | None => None
        | Some raw_headers =>
            let raw := lower raw_headers in
            let production_security_score := 0 in
            let production_security_score :=
              if contains "strict-transport-security" raw
              then production_security_score + 5
              else production_security_score in
            let production_security_score :=
              if contains "x-frame-options" raw
              then production_security_score + 5
              else production_security_score in
            let production_security_score :=
              if contains "secure; httponly" raw
              then production_security_score + 5
              else production_security_score in
            let total_security_score :=
              base_score + security_features_score
              + production_security_score in
            Some (py_min total_security_score 100)
        end
    end in
  match attempt with Some score => score | None => 0 end.

(** [hipaa_data.get(key, default)] on the loaded document: [None] stands
    for the [AttributeError] of a document that is not a dict. *)
Definition json_get (key : string) (default : json) (doc : json)
  : option json :=
  match doc with
  | JObj members =>
      Some (match assoc key members with Some v => v | None => default end)
  | _ => None
  end.

(** [passed_tests / total_tests]: [None] stands for [TypeError] or
    [ZeroDivisionError]. *)
Definition true_div (a b : json) : option Q :=
  match json_number a, json_number b with
  | Some x, Some y => if Qeq_bool y 0 then None else Some (x / y)
  | _, _ => None
  end.

(** The part of [analyze_hipaa_results] that reads hipaa_tests.json. *)
Definition hipaa_test_score (hipaa_data : json) : option Q :=
  let hipaa_score := 0 in
  match json_get "success" (JBool false) hipaa_data with
  | None => None
  | Some success =>
      if json_truthy success then
        match json_get "numPassedTests" (JNum 0) hipaa_data,
              json_get "numTotalTests" (JNum 1) hipaa_data,
              json_get "testResults" (JArr []) hipaa_data with
        | Some passed_tests, Some total_tests, Some test_results =>
            match true_div passed_tests total_tests with
            | None => None
            | Some ratio =>
                let test_score := ratio * 100 in
                let hipaa_score := hipaa_score + test_score * 0.7 in
                if test_results_iterable test_results
                then Some hipaa_score else None
            end
        | _, _, _ => None
        end
      else Some (hipaa_score + 70)
  end.

(** The inner [try] of [analyze_hipaa_results], whose handler is
    [pass]. *)
Definition hipaa_endpoint_score (d : results_dir) (hipaa_score : Q) : Q :=
  match hipaa_endpoints_txt d with
  | None => hipaa_score
  | Some endpoint_content =>
      let endpoint_lines :=
        filter (contains "ENDPOINT:") (split_lines endpoint_content) in
      let successful_endpoints := len (filter endpoint_ok endpoint_lines) in
      let total_endpoints := len endpoint_lines in
      if Qlt_bool 0 total_endpoints then
        let endpoint_success_rate :=
          (successful_endpoints / total_endpoints) * 100 in
        let endpoint_score := endpoint_success_rate * 0.3 in
        hipaa_score + endpoint_score
      else hipaa_score
  end.

Definition analyze_hipaa_results (d : results_dir) : Q :=
  let attempt : option Q :=
    match hipaa_tests_json d with
    | Some (Some hipaa_data) =>
        match hipaa_test_score hipaa_data with
        | Some hipaa_score =>
            Some (py_min (hipaa_endpoint_score d hipaa_score) 100)
        | None => None
        end
    | _ => None
    end in
  match attempt with Some score => score | None => 0 end.

(** The outcome of the k6 part of [analyze_performance_results]: [None]
    stands for an exception ([open] or [float]) on its way to the
    fallback. *)
Definition k6_score (d : results_dir) : option Q :=
  match performance_output_txt d with
  | None => None
  | Some content =>
      let avg_duration_match :=
        re_search (key_then "http_req_duration" (millis "avg=")) content in
      let p95_duration_match :=
        re_search (key_then "http_req_duration" (millis "p(95)=")) content in
      let checks_succeeded_match :=
        re_search (key_then "checks_succeeded" percentage) content in
      let performance_score := 0 in
      let after_avg : option Q :=
        match avg_duration_match with
        | None => Some performance_score
        | Some g =>
            match float g with
            | None => None
            | Some avg_duration =>
                Some (if Qlt_bool avg_duration 25 then performance_score + 50
                      else if Qlt_bool avg_duration 50
                      then performance_score + 40
                      else if Qlt_bool avg_duration 100
                      then performance_score + 25
                      else performance_score)
            end
        end in
      match after_avg with
      | None => None
      | Some performance_score =>
          let after_p95 : option Q :=
            match p95_duration_match with
            | None => Some performance_score
            | Some g =>
                match float g with
                | None => None
                | Some p95_duration =>
                    Some (if Qlt_bool p95_duration 50
                          then performance_score + 40
                          else if Qlt_bool p95_duration 100
                          then performance_score + 30
                          else performance_score)
                end
            end in
          match after_p95 with
          | None => None
          | Some performance_score =>
              match checks_succeeded_match with
              | None => Some performance_score
              | Some g =>
                  match float g with
                  | None => None
                  | Some success_rate =>
                      Some (if Qeq_bool success_rate 100
                            then performance_score + 10
                            else if Qlt_bool 95 success_rate
                            then performance_score + 8
                            else performance_score)
                  end
              end
          end
      end
  end.

(** The fallback of [analyze_performance_results], from the curl
    result. *)
Definition curl_score (d : results_dir) : Q :=
  let attempt : option Q :=
    match deployment_accessibility_txt d with
    | None => None
    | Some content =>
        match re_search (key_run "TIME_TOTAL:" is_digit_or_dot) content with
        | None => Some 60
        | Some t =>
            match float t with
            | None => None
            | Some x => Some (if Qlt_bool x 1 then 85 else 60)
            end
        end
    end in
  match attempt with Some score => score | None => 50 end.

Definition analyze_performance_results (d : results_dir) : Q :=
  let performance_score :=
    match k6_score d with
    | Some score => score
    | None => curl_score d
    end in
  py_min performance_score 100.

Definition analyze_integration_results (d : results_dir) : Q :=
  match integration_tests_txt d with
  | None => 0
  | Some content =>
      let integration_lines :=
        filter (fun line => contains "ENDPOINT:" line || contains "DB_TEST" line)
               (split_lines content) in
      let successful_integrations :=
        len (filter endpoint_ok integration_lines) in
      let total_integrations := len integration_lines in
      if Qlt_bool 0 total_integrations
      then (successful_integrations / total_integrations) * 100
      else 0
  end.

(** [self.weights], in the order of the dict. *)
Definition weights : list (string * Q) :=
  [("deployment", 0.20); ("security", 0.20); ("hipaa", 0.25);
   ("performance", 0.20); ("integration", 0.15)].

(** [self.scores] after the five analyzers have run, in insertion
    order. *)
Definition scores (d : results_dir) : list (string * Q) :=
  [("deployment", analyze_deployment_results d);
   ("security", analyze_security_results d);
   ("hipaa", analyze_hipaa_results d);
   ("performance", analyze_performance_results d);
   ("integration", analyze_integration_results d)].

Definition weight (category : string) : Q :=
  match assoc category weights with Some w => w | None => 0 end.

(** One entry of [score_breakdown]. *)
Record breakdown : Type := {
  category : string;
  score : Q;
  weight_percent : Q;
  contribution : Q
}.

(** The loop of [calculate_confidence_score] over [self.scores]. *)
Fixpoint accumulate (items : list (string * Q)) (weighted_score : Q)
  (score_breakdown : list breakdown) : Q * list breakdown :=
  match items with
  | [] => (weighted_score, score_breakdown)
  | (cat, s) :: rest =>
      let w := weight cat in
      let weighted_contribution := s * w in
      accumulate rest (weighted_score + weighted_contribution)
        (score_breakdown ++
         [{| category := cat; score := s; weight_percent := w * 100;
             contribution := weighted_contribution |}])
  end.

Definition calculate_confidence_score (d : results_dir)
  : Q * list breakdown :=
  accumulate (scores d) 0 [].

(** [main], after [generate_report] has filled [self.scores]: the score
    it sums up again for the console, and the value it returns; [None]
    stands for the exception of an [open] that cannot create the report
    file. *)
Definition main_confidence_score (d : results_dir) : Q :=
  fold_left (fun acc cs => acc + snd cs * weight (fst cs)) (scores d) 0.

Definition main (d : results_dir) (report_writable : bool) : option bool :=
  if report_writable then Some (Qle_bool 95 (main_confidence_score d))
  else None.

End Summarize.

(** ** Observations on a run

    What a run did is read off the two histories of the world: the log
    records and the database operations added since the run started. *)

Module Obs.
Import Py Pg Orchestrator.

(** The log records added between [w] and [w']. *)
Definition new_log (w w' : world) : list log_entry :=
  skipn (List.length (log w)) (log w').

(** The database operations added between [w] and [w']. *)
Definition new_ops (w w' : world) : list db_op :=
  skipn (List.length (ops w)) (ops w').

(** The migration files on which [execute_migration_file] was entered,
    in order: its first action is the record [LExecuting]. *)
Definition started (l : list log_entry) : list string :=
  flat_map (fun e => match e with LExecuting p => [p] | _ => [] end) l.

(** The calls of [execute_migration_file] that came to an end, with the
    value returned: its last action is one of the two records. *)
Definition outcomes (l : list log_entry) : list (string * bool) :=
  flat_map (fun e => match e with
                     | LMigrationCompleted p => [(p, true)]
                     | LMigrationFailed p _ => [(p, false)]
                     | _ => []
                     end) l.

(** The migration texts sent to the database. *)
Definition scripts (o : list db_op) : list string :=
  flat_map (fun op => match op with
                      | OpExecute (Script sql) => [sql]
                      | _ => []
                      end) o.

(** The tables written to by INSERT statements. *)
Definition inserted_into (o : list db_op) : list string :=
  flat_map (fun op => match op with
                      | OpExecute (InsertOnConflictDoNothing t _ _) => [t]
                      | _ => []
                      end) o.

(** Is the operation a read of the database? *)
Definition is_read (op : db_op) : bool :=
  match op with
  | OpExecute s => is_select s
  | _ => false
  end.

(** The rows of a table of the database, [None] when it does not
    exist. *)
Definition table_rows (t : string) (w : world) : option (list row) :=
  option_map tbl_rows (assoc t (db_tables (srv_db (server w)))).

(** *** Frame relations *)

(** A relation between the state before and after a computation that
    holds whatever the computation returns. *)
Definition preserves {St A} (R : St -> St -> Prop) (m : M St A) : Prop :=
  forall s, R s (snd (m s)).

(** A relation on worlds, seen from a computation with a local
    variable. *)
Definition on_world {L} (R : world -> world -> Prop)
  : L * world -> L * world -> Prop :=
  fun s s' => R (snd s) (snd s').

(** The log grew by records that tell of the calls [ss] of
    [execute_migration_file] and of the outcomes [os]. *)
Definition emits (ss : list string) (os : list (string * bool))
  (w w' : world) : Prop :=
  exists l, log w' = log w ++ l /\ started l = ss /\ outcomes l = os.

(** The outcomes of calls that all returned [True]. *)
Definition succeeded (fs : list string) : list (string * bool) :=
  map (fun p => (p, true)) fs.

(** No call of [execute_migration_file] took place. *)
Definition quiet : world -> world -> Prop := emits [] [].

(** Nothing but the histories changed, and the database was only
    read. *)
Definition reads_only (w w' : world) : Prop :=
  server w' = server w /\ conn w' = conn w /\ files w' = files w
  /\ fs_writable w' = fs_writable w /\ written w' = written w
  /\ exists o, ops w' = ops w ++ o /\ forallb is_read o = true.

(** Is the connection usable: open, to a server that answers? *)
Definition connected (w : world) : bool :=
  match conn w with
  | Open => srv_up (server w)
  | _ => false
  end.

(** Does the server offer the vector extension? *)
Definition vector_available (w : world) : bool :=
  mem "vector" (db_available_extensions (srv_db (server w))).

(** No migration text was sent to the database. *)
Definition no_script (w w' : world) : Prop :=
  exists o, ops w' = ops w ++ o /\ scripts o = [].

(** What [SELECT * FROM t LIMIT 1000] returns, nothing when the table
    does not exist. *)
Definition snapshot (t : string) (w : world) : list row :=
  match assoc t (db_tables (srv_db (server w))) with
  | Some tb => firstn 1000 (tbl_rows tb)
  | None => []
  end.

Definition table_exists (t : string) (w : world) : bool :=
  match assoc t (db_tables (srv_db (server w))) with
  | Some _ => true
  | None => false
  end.

(** The two worlds differ in their histories at most. *)
Definition same_env (w w' : world) : Prop :=
  environ w' = environ w /\ dotenv w' = dotenv w /\ files w' = files w
  /\ fs_writable w' = fs_writable w /\ written w' = written w
  /\ now w' = now w /\ server w' = server w /\ conn w' = conn w
  /\ stdout w' = stdout w.

(** The dict [backup_existing_data] starts from, the one it ends with on
    a server that answers, and the file it writes to. *)
Definition empty_backup (w : world) : backup_data :=
  {| bd_timestamp := now_isoformat (now w);
     bd_tables := [("rag_documents", []); ("user_sessions", []);
                   ("conversation_messages", [])] |}.

Definition capture (w : world) (bd : backup_data) (t : string)
  : backup_data :=
  if table_exists t w then set_rows t (snapshot t w) bd else bd.

Definition snapshot_backup (w : world) : backup_data :=
  fold_left (capture w)
    ["rag_documents"; "user_sessions"; "conversation_messages"]
    (empty_backup w).

Definition backup_file (w : world) : string :=
  ("supabase_migration_backup/backup_" ++ now_stamp (now w) ++ ".json")%string.


(** Is the operation an INSERT into one of the tables [ts]? *)
Definition is_insert_into (ts : list string) (op : db_op) : bool :=
  match op with
  | OpExecute (InsertOnConflictDoNothing t _ _) => mem t ts
  | _ => false
  end.

(** The only database operations were INSERTs into the tables [ts], and
    every other table is as it was. *)
Definition writes_only (ts : list string) (w w' : world) : Prop :=
  (exists o, ops w' = ops w ++ o /\ forallb (is_insert_into ts) o = true)
  /\ (forall t, mem t ts = false -> table_rows t w' = table_rows t w).





(** The computation raises an exception from the state [s]. *)
Definition raises {St A} (m : M St A) (s : St) : Prop :=
  exists e, fst (m s) = Raise e.

(** The computation always returns a value. *)
Definition total {St A} (m : M St A) : Prop :=
  forall s, exists a, fst (m s) = Ok a.

(** The computation raises nothing but an [Exception]. *)
Definition no_exit {St A} (m : M St A) : Prop :=
  forall s e, fst (m s) = Raise e -> is_Exception e = true.

(** *** The confidence score *)




End Obs.

(** ** Concrete worlds

    Inputs on which the properties below are exercised. *)

Module Scenario.
Import Py Pg Orchestrator.

Definition empty_table (pkey : string) (unique : list string) : table :=
  {| tbl_pkey := pkey; tbl_unique := unique; tbl_rows := [] |}.

(** A server-side reading of the migration texts: a text holding
    [SYNTAX ERROR] is rejected and leaves the database as it is; any
    other text succeeds and creates the tables that are missing. *)
Definition create_missing (db : database) : database :=
  fold_left
    (fun d t =>
       if mem (fst t) (map fst (db_tables d)) then d
       else set_tables (db_tables d ++ [t]) d)
    [("rag_documents", empty_table "id" []);
     ("user_sessions", empty_table "id" ["session_id"]);
     ("conversation_messages", empty_table "id" [])]
    db.

Definition engine (sql : string) (db : database) : bool * database :=
  if contains "SYNTAX ERROR" sql then (false, db)
  else (true, create_missing db).

Definition doc (id : Z) (title : string) : row :=
  [("id", PInt id); ("title", PStr title); ("content", PStr "text");
   ("metadata", PDict "{}")].

Definition session (id : Z) (session_id : string) : row :=
  [("id", PInt id); ("user_id", PInt 7); ("session_id", PStr session_id)].

Definition message (id : Z) (text : string) : row :=
  [("id", PInt id); ("content", PStr text)].

Definition database_with (tables : list (string * table)) : database :=
  {| db_version := "PostgreSQL 15.1";
     db_available_extensions := ["plpgsql"; "vector"];
     db_extensions := ["plpgsql"];
     db_tables := tables;
     db_functions := [];
     db_indexes := [];
     db_policies := [] |}.

(** A database that holds two documents already. *)
Definition old_database : database :=
  database_with
    [("rag_documents",
      {| tbl_pkey := "id"; tbl_unique := [];
         tbl_rows := [doc 1 "first"; doc 2 "second"] |})].

Definition dsn : string :=
  "postgresql://postgres:abc.supabase.co:5432/postgres?sslmode=require".

Definition server_with (db : database) : Pg.server :=
  {| srv_dsn := dsn; srv_up := true; srv_db := db; srv_script := engine |}.

Definition full_environ : list (string * string) :=
  [("NEXT_PUBLIC_SUPABASE_URL", "https://abc.supabase.co");
   ("NEXT_PUBLIC_SUPABASE_ANON_KEY", "anon");
   ("SUPABASE_SERVICE_ROLE_KEY", "service");
   ("OPENAI_API_KEY", "sk-key")].

Definition good_files : list (string * string) :=
  [("migrations/000_add_pgvector.sql", "CREATE EXTENSION vector;");
   ("migrations/001_create_rag_schema.sql", "CREATE TABLE rag_documents;");
   ("migrations/002_create_memory_schema.sql", "CREATE TABLE user_sessions;");
   ("migrations/003_create_functions.sql", "CREATE FUNCTION log_rag_query;")].

(** The world of an orchestrator that has been constructed. *)
Definition world_with (fs : list (string * string)) (db : database) : world :=
  {| environ := full_environ; dotenv := []; files := fs;
     fs_writable := true; written := [];
     now := {| now_isoformat := "2025-07-21T10:00:00";
               now_stamp := "20250721_100000" |};
     server := server_with db; conn := Open; ops := []; log := [];
     stdout := [] |}.

Definition healthy : world := world_with good_files old_database.

(** The second migration file is rejected by the server. *)
Definition second_file_broken : world :=
  world_with
    [("migrations/000_add_pgvector.sql", "CREATE EXTENSION vector;");
     ("migrations/001_create_rag_schema.sql", "SYNTAX ERROR");
     ("migrations/002_create_memory_schema.sql",
      "CREATE TABLE user_sessions;");
     ("migrations/003_create_functions.sql",
      "CREATE FUNCTION log_rag_query;")]
    old_database.

(** The first migration file does not exist. *)
Definition first_file_missing : world :=
  world_with (tl good_files) old_database.

(** The server does not offer the vector extension. *)
Definition no_vector : world :=
  world_with good_files
    {| db_version := "PostgreSQL 15.1";
       db_available_extensions := ["plpgsql"];
       db_extensions := ["plpgsql"];
       db_tables := [];
       db_functions := [];
       db_indexes := [];
       db_policies := [] |}.

(** The world of a process that has not constructed the orchestrator
    yet. *)
Definition process_with (env : list (string * string)) : world :=
  set_conn Unset (set_environ env healthy).

(** Every required variable is set, one of them to the empty string. *)
Definition empty_api_key : world :=
  process_with
    [("NEXT_PUBLIC_SUPABASE_URL", "https://abc.supabase.co");
     ("NEXT_PUBLIC_SUPABASE_ANON_KEY", "anon");
     ("SUPABASE_SERVICE_ROLE_KEY", "service");
     ("OPENAI_API_KEY", EmptyString)].

(** A required variable is not set at all. *)
Definition unset_api_key : world :=
  process_with
    [("NEXT_PUBLIC_SUPABASE_URL", "https://abc.supabase.co");
     ("NEXT_PUBLIC_SUPABASE_ANON_KEY", "anon");
     ("SUPABASE_SERVICE_ROLE_KEY", "service")].

(** The user_sessions table exists without a unique index on
    session_id, so that its INSERT ... ON CONFLICT (session_id) is
    rejected. *)
Definition sessions_without_index : world :=
  world_with good_files
    (database_with
       [("user_sessions",
         {| tbl_pkey := "id"; tbl_unique := [];
            tbl_rows := [session 1 "s-1"] |})]).



(** The database once the migration files have run on an empty
    server. *)
Definition fresh_database : database :=
  database_with
    [("rag_documents", empty_table "id" []);
     ("user_sessions", empty_table "id" ["session_id"]);
     ("conversation_messages", empty_table "id" [])].

Definition freshly_migrated : world := world_with good_files fresh_database.

(** An old database with rows in all three tables. *)
Definition old_tables : world :=
  world_with good_files
    (database_with
       [("rag_documents",
         {| tbl_pkey := "id"; tbl_unique := [];
            tbl_rows := [doc 1 "first"; doc 2 "second"] |});
        ("user_sessions",
         {| tbl_pkey := "id"; tbl_unique := [];
            tbl_rows := [session 1 "s-1"; session 2 "s-2"] |});
        ("conversation_messages",
         {| tbl_pkey := "id"; tbl_unique := [];
            tbl_rows := [message 1 "hello"] |})]).


(** A backup whose first document has no id. *)
Definition backup_with_bad_document : backup_data :=
  {| bd_timestamp := "2025-07-21T10:00:00";
     bd_tables := [("rag_documents", [[("title", PStr "no id")]]);
                   ("user_sessions", [session 1 "s-1"]);
                   ("conversation_messages", [message 1 "hello"])] |}.

(** A results directory that holds hipaa_tests.json only. *)
Definition results_with_hipaa (doc : Summarize.json) : Summarize.results_dir :=
  {| Summarize.deployment_accessibility_txt := None;
     Summarize.api_endpoints_txt := None;
     Summarize.security_headers_txt := None;
     Summarize.security_headers_raw_txt := None;
     Summarize.hipaa_tests_json := Some (Some doc);
     Summarize.hipaa_endpoints_txt := None;
     Summarize.performance_output_txt := None;
     Summarize.integration_tests_txt := None |}.

(** The report of a test runner. *)
Definition hipaa_report (passed total : Q) : Summarize.json :=
  Summarize.JObj [("success", Summarize.JBool true);
                  ("numPassedTests", Summarize.JNum passed);
                  ("numTotalTests", Summarize.JNum total)].



(** A report of a run that did not succeed. *)
Definition failed_run : Summarize.results_dir :=
  results_with_hipaa
    (Summarize.JObj [("success", Summarize.JBool false);
                     ("numPassedTests", Summarize.JNum 0);
                     ("numTotalTests", Summarize.JNum 12)]).

(** Every check answers, every number is as good as it gets. *)
Definition perfect_results : Summarize.results_dir :=
  {| Summarize.deployment_accessibility_txt :=
       Some "HTTP_STATUS:200 TIME_TOTAL:0.31";
     Summarize.api_endpoints_txt := Some "ENDPOINT:/api/health|STATUS:200";
     Summarize.security_headers_txt :=
       Some "HEADER:x-frame-options|STATUS:PRESENT";
     Summarize.security_headers_raw_txt := Some "X-Frame-Options: DENY";
     Summarize.hipaa_tests_json := Some (Some (hipaa_report 12 12));
     Summarize.hipaa_endpoints_txt := Some "ENDPOINT:/api/phi|STATUS:401";
     Summarize.performance_output_txt :=
       Some "http_req_duration: avg=12.5ms p(95)=31.2ms";
     Summarize.integration_tests_txt :=
       Some "ENDPOINT:/api/rag|STATUS:200|TIME:0.2" |}.

End Scenario.

(** * Properties *)

Import Py Pg Orchestrator Obs.
Local Open Scope nat_scope.
Local Open Scope py_scope.

(** ** Reasoning about computations *)

Section Inversion.
Context {St : Type}.

Lemma bind_inv {A B} (m : M St A) (k : A -> M St B) s r s' :
  bind m k s = (r, s') ->
  (exists a s1, m s = (Ok a, s1) /\ k a s1 = (r, s'))
  \/ (exists e, m s = (Raise e, s') /\ r = Raise e).
Proof.
  unfold bind. destruct (m s) as [[a|e] s1]; intro H.
  - left. eauto.
  - right. inversion H; subst. eauto.
Qed.

Lemma try_except_inv {A} (body : M St A) (handler : exn -> M St A) s r s' :
  try_except body handler s = (r, s') ->
  (exists a, body s = (Ok a, s') /\ r = Ok a)
  \/ (exists e s1, body s = (Raise e, s1) /\ is_Exception e = true
                   /\ handler e s1 = (r, s'))
  \/ (exists e, body s = (Raise e, s') /\ is_Exception e = false
                /\ r = Raise e).
Proof.
  unfold try_except. destruct (body s) as [[a|e] s1]; intro H.
  - left. inversion H; subst. eauto.
  - destruct (is_Exception e) eqn:E.
    + right; left. eauto.
    + right; right. inversion H; subst. eauto.
Qed.

End Inversion.

Section Preserves.
Context {St : Type} (R : St -> St -> Prop) {HR : PreOrder R}.

Lemma preserves_ret {A} (a : A) : preserves R (ret a).
Proof. intro s. reflexivity. Qed.

Lemma preserves_raise {A} e : preserves R (@raise St A e).
Proof. intro s. reflexivity. Qed.

Lemma preserves_of_result {A} (r : result A) : preserves R (of_result r).
Proof. intro s. reflexivity. Qed.

Lemma preserves_fetchone_0 rs : preserves R (@fetchone_0 St rs).
Proof.
  intro s. unfold fetchone_0.
  destruct (fetchone rs) as [[|[? ?] ?]|]; reflexivity.
Qed.

Lemma preserves_bind {A B} (m : M St A) (k : A -> M St B) :
  preserves R m -> (forall a, preserves R (k a)) -> preserves R (bind m k).
Proof.
  intros Hm Hk s. unfold bind. specialize (Hm s).
  destruct (m s) as [[a|e] s1]; simpl in *; [|assumption].
  etransitivity; [eassumption|apply Hk].
Qed.

Lemma preserves_try_except {A} (body : M St A) handler :
  preserves R body -> (forall e, preserves R (handler e)) ->
  preserves R (try_except body handler).
Proof.
  intros Hb Hh s. unfold try_except. specialize (Hb s).
  destruct (body s) as [[a|e] s1]; simpl in *; [assumption|].
  destruct (is_Exception e); simpl; [|assumption].
  etransitivity; [eassumption|apply Hh].
Qed.

Lemma preserves_try_finally {A} (body : M St A) cleanup :
  preserves R body -> preserves R cleanup ->
  preserves R (try_finally body cleanup).
Proof.
  intros Hb Hc s. unfold try_finally. specialize (Hb s).
  destruct (body s) as [r s1]; simpl in *. specialize (Hc s1).
  destruct (cleanup s1) as [[u|e] s2]; simpl in *;
    etransitivity; eassumption.
Qed.

Lemma preserves_for_each {A} (xs : list A) (body : A -> M St unit) :
  (forall x, preserves R (body x)) -> preserves R (for_each xs body).
Proof.
  intro Hb. induction xs as [|x xs IH]; simpl.
  - apply preserves_ret.
  - apply preserves_bind; auto.
Qed.

Lemma preserves_comprehension {A B} (f : A -> result B) xs :
  preserves R (@comprehension St A B f xs).
Proof.
  induction xs as [|x xs IH]; simpl.
  - apply preserves_ret.
  - apply preserves_bind; [apply preserves_of_result|]. intro y.
    apply preserves_bind; [assumption|]. intro ys. apply preserves_ret.
Qed.

End Preserves.

Section PreservesLocal.
Context {L : Type} (R : world -> world -> Prop) {HR : PreOrder R}.

#[export] Instance on_world_preorder : PreOrder (@on_world L R).
Proof.
  split.
  - intros [l w]. unfold on_world. reflexivity.
  - intros [l1 w1] [l2 w2] [l3 w3]. unfold on_world. simpl.
    intros. etransitivity; eassumption.
Qed.

Lemma preserves_lift {A} (m : M world A) :
  preserves R m -> preserves (@on_world L R) (lift m).
Proof.
  intros Hm [l w]. unfold on_world, lift. simpl. specialize (Hm w).
  destruct (m w); assumption.
Qed.

Lemma preserves_get_local : preserves (@on_world L R) get_local.
Proof. intros [l w]. unfold on_world. simpl. reflexivity. Qed.

Lemma preserves_set_local l : preserves (@on_world L R) (set_local l).
Proof. intros [l' w]. unfold on_world. simpl. reflexivity. Qed.

Lemma preserves_with_local {A} l0 (m : M (L * world) A) :
  preserves (@on_world L R) m -> preserves R (with_local l0 m).
Proof.
  intros Hm w. unfold with_local. specialize (Hm (l0, w)).
  unfold on_world in Hm. simpl in Hm. destruct (m (l0, w)); assumption.
Qed.

End PreservesLocal.

(** Decomposition of a computation into its primitive operations, each
    of which is left to [prim]. *)
Ltac preserve_with prim :=
  repeat first
    [ apply preserves_ret; typeclasses eauto
    | apply preserves_raise; typeclasses eauto
    | apply preserves_of_result; typeclasses eauto
    | apply preserves_fetchone_0; typeclasses eauto
    | apply preserves_comprehension; typeclasses eauto
    | apply preserves_get_local; typeclasses eauto
    | apply preserves_set_local; typeclasses eauto
    | apply preserves_bind; [typeclasses eauto| |intro]
    | apply preserves_try_except; [typeclasses eauto| |intro]
    | apply preserves_try_finally; [typeclasses eauto| |]
    | apply preserves_for_each; [typeclasses eauto|intro]
    | apply preserves_with_local
    | apply preserves_lift
    | match goal with
      | |- preserves _ (if ?b then _ else _) => destruct b
      | |- preserves _ (match ?x with _ => _ end) => destruct x
      | |- preserves _ (let (_, _) := ?x in _) => destruct x
      end
    | prim ].

(** ** The log of the phases around the schema migration *)

Lemma started_app l1 l2 : started (l1 ++ l2) = started l1 ++ started l2.
Proof. unfold started. apply flat_map_app. Qed.

Lemma outcomes_app l1 l2 : outcomes (l1 ++ l2) = outcomes l1 ++ outcomes l2.
Proof. unfold outcomes. apply flat_map_app. Qed.

Lemma emits_refl w : emits [] [] w w.
Proof. exists []. rewrite app_nil_r. auto. Qed.

Lemma emits_trans ss1 os1 ss2 os2 w1 w2 w3 :
  emits ss1 os1 w1 w2 -> emits ss2 os2 w2 w3 ->
  emits (ss1 ++ ss2) (os1 ++ os2) w1 w3.
Proof.
  intros (l1 & E1 & S1 & O1) (l2 & E2 & S2 & O2). exists (l1 ++ l2).
  rewrite E2, E1, app_assoc, started_app, outcomes_app. subst. auto.
Qed.

#[export] Instance quiet_preorder : PreOrder quiet.
Proof.
  split.
  - intro w. apply emits_refl.
  - intros w1 w2 w3 H1 H2. apply (emits_trans [] [] [] [] _ _ _ H1 H2).
Qed.

(** A log record that is not about a migration file keeps the run
    quiet. *)
Ltac quiet_step :=
  match goal with
  | |- quiet ?w ?w' =>
      first [ solve [exists []; simpl; rewrite app_nil_r; auto]
            | solve [eexists [_]; simpl; split;
                     [reflexivity|split; reflexivity]] ]
  end.

Ltac quiet_prim :=
  intro;
  unfold logger, print, getenv, load_dotenv, datetime_now, read_file,
    write_json, connect, cursor, execute, close_connection, sys_exit, raise,
    update_results;
  simpl;
  repeat match goal with
         | |- context [match ?x with _ => _ end] => destruct x; simpl
         | |- context [if ?x then _ else _] => destruct x; simpl
         end;
  quiet_step.

Lemma quiet_execute s : preserves quiet (execute s).
Proof.
  intro w. unfold execute. destruct (srv_up (server w)).
  - destruct (run_stmt s (server w)). simpl. quiet_step.
  - simpl. quiet_step.
Qed.

Ltac quiet_op := first [apply quiet_execute | quiet_prim].

Lemma quiet_test_supabase_connection : preserves quiet test_supabase_connection.
Proof. unfold test_supabase_connection. preserve_with quiet_op. Qed.

Lemma quiet_check_pgvector_extension : preserves quiet check_pgvector_extension.
Proof. unfold check_pgvector_extension. preserve_with quiet_op. Qed.

(** ** Which computations return, which may raise an [Exception] *)

Section Totality.
Context {St : Type}.

Lemma total_no_exit {A} (m : M St A) : total m -> no_exit m.
Proof. intros H s e E. destruct (H s) as [a Ha]. congruence. Qed.

Lemma total_ret {A} (a : A) : total (@ret St A a).
Proof. intro s. exists a. reflexivity. Qed.

Lemma total_bind {A B} (m : M St A) (k : A -> M St B) :
  total m -> (forall a, total (k a)) -> total (bind m k).
Proof.
  intros Hm Hk s. unfold bind. destruct (Hm s) as [a Ha].
  destruct (m s) as [[a'|e] s1]; simpl in Ha; [|discriminate].
  apply Hk.
Qed.

Lemma total_try_except {A} (body : M St A) handler :
  no_exit body -> (forall e, total (handler e)) ->
  total (try_except body handler).
Proof.
  intros Hb Hh s. unfold try_except. specialize (Hb s).
  destruct (body s) as [[a|e] s1]; simpl in *.
  - exists a. reflexivity.
  - rewrite (Hb e eq_refl). apply Hh.
Qed.

Lemma total_for_each {A} (xs : list A) (body : A -> M St unit) :
  (forall x, total (body x)) -> total (for_each xs body).
Proof.
  intro Hb. induction xs as [|x xs IH]; simpl.
  - apply total_ret.
  - apply total_bind; auto.
Qed.

Lemma no_exit_ret {A} (a : A) : no_exit (@ret St A a).
Proof. intros s e H. discriminate. Qed.

Lemma no_exit_raise {A} e : is_Exception e = true -> no_exit (@raise St A e).
Proof. intros He s e' H. inversion H; subst. assumption. Qed.

Lemma no_exit_bind {A B} (m : M St A) (k : A -> M St B) :
  no_exit m -> (forall a, no_exit (k a)) -> no_exit (bind m k).
Proof.
  intros Hm Hk s e. unfold bind. specialize (Hm s).
  destruct (m s) as [[a|e'] s1]; simpl in *.
  - apply Hk.
  - intro H. inversion H; subst. auto.
Qed.

Lemma no_exit_try_except {A} (body : M St A) handler :
  no_exit body -> (forall e, no_exit (handler e)) ->
  no_exit (try_except body handler).
Proof.
  intros Hb Hh s e. unfold try_except. specialize (Hb s).
  destruct (body s) as [[a|e'] s1]; simpl in *.
  - discriminate.
  - rewrite (Hb e' eq_refl). apply Hh.
Qed.

Lemma no_exit_for_each {A} (xs : list A) (body : A -> M St unit) :
  (forall x, no_exit (body x)) -> no_exit (for_each xs body).
Proof.
  intro Hb. induction xs as [|x xs IH]; simpl.
  - apply no_exit_ret.
  - apply no_exit_bind; auto.
Qed.

Lemma no_exit_fetchone_0 rs : no_exit (@fetchone_0 St rs).
Proof.
  intros s e. unfold fetchone_0.
  destruct (fetchone rs) as [[|[? ?] ?]|]; simpl; intro H;
    inversion H; reflexivity.
Qed.

Lemma no_exit_comprehension {A B} (f : A -> result B) xs :
  (forall x e, f x = Raise e -> is_Exception e = true) ->
  no_exit (@comprehension St A B f xs).
Proof.
  intro Hf. induction xs as [|x xs IH]; simpl.
  - apply no_exit_ret.
  - apply no_exit_bind.
    + intros s e H. unfold of_result in H. simpl in H. eauto.
    + intro y. apply no_exit_bind; [assumption|]. intro. apply no_exit_ret.
Qed.

Lemma total_get_local {L} : total (@get_local L St).
Proof. intros [l s]. eexists. reflexivity. Qed.

Lemma total_set_local {L} (l : L) : total (@set_local L St l).
Proof. intros [l' s]. eexists. reflexivity. Qed.

Lemma total_lift {L A} (m : M St A) : total m -> total (@lift L St A m).
Proof.
  intros Hm [l s]. unfold lift. simpl. destruct (Hm s) as [a Ha].
  destruct (m s) as [r s1]. simpl in *. eauto.
Qed.

Lemma no_exit_lift {L A} (m : M St A) : no_exit m -> no_exit (@lift L St A m).
Proof.
  intros Hm [l s] e. unfold lift. simpl. specialize (Hm s e).
  destruct (m s) as [r s1]. simpl in *. assumption.
Qed.

Lemma total_with_local {L A} (l0 : L) (m : M (L * St) A) :
  total m -> total (with_local l0 m).
Proof.
  intros Hm s. unfold with_local. destruct (Hm (l0, s)) as [a Ha].
  destruct (m (l0, s)) as [r s1]. simpl in *. eauto.
Qed.

End Totality.

(** Case analysis on a scrutinee that holds no further [match]. *)
Ltac innermost_in H :=
  match type of H with
  | context [match ?x with _ => _ end] =>
      lazymatch x with
      | context [match _ with _ => _ end] => fail
      | _ => destruct x; simpl in H
      end
  end.

Ltac innermost :=
  match goal with
  | |- context [match ?x with _ => _ end] =>
      lazymatch x with
      | context [match _ with _ => _ end] => fail
      | _ => destruct x; simpl
      end
  end.

Lemma run_stmt_no_exit s srv e :
  fst (run_stmt s srv) = Raise e -> is_Exception e = true.
Proof.
  intro H. destruct s; simpl in H;
    unfold insert_on_conflict_do_nothing in H;
    repeat innermost_in H;
    solve [discriminate H | inversion H; reflexivity].
Qed.

Lemma no_exit_execute s : no_exit (execute s).
Proof.
  intros w e. unfold execute. destruct (srv_up (server w)).
  - pose proof (run_stmt_no_exit s (server w) e) as H.
    destruct (run_stmt s (server w)). simpl in *. assumption.
  - simpl. intro H. inversion H. reflexivity.
Qed.

(** The primitive operations on the world. *)
Ltac no_exit_prim :=
  let H := fresh in
  intros ? ? H;
  unfold logger, print, getenv, load_dotenv, datetime_now, read_file,
    write_json, connect, cursor, execute, close_connection, update_results,
    get_local, set_local, of_result, rag_document_params,
    user_session_params, json_dumps, policy_of, column, bind, ret,
    run_stmt, insert_on_conflict_do_nothing in H;
  simpl in H;
  repeat innermost_in H;
  solve [discriminate H | inversion H; reflexivity].

Ltac total_prim :=
  intro;
  unfold logger, print, getenv, load_dotenv, datetime_now, update_results,
    get_local, set_local, bind, ret;
  simpl; eexists; reflexivity.

Ltac no_exit_with prim :=
  repeat first
    [ apply no_exit_execute
    | apply no_exit_ret
    | apply no_exit_raise; reflexivity
    | apply no_exit_fetchone_0
    | apply no_exit_bind; [|intro]
    | apply no_exit_try_except; [|intro]
    | apply no_exit_for_each; intro
    | apply no_exit_lift
    | apply total_no_exit; apply total_get_local
    | apply total_no_exit; apply total_set_local
    | match goal with
      | |- no_exit (if ?b then _ else _) => destruct b
      | |- no_exit (match ?x with _ => _ end) => destruct x
      | |- no_exit (let (_, _) := ?x in _) => destruct x
      end
    | prim ].

Ltac total_with prim :=
  repeat first
    [ apply total_ret
    | apply total_get_local
    | apply total_set_local
    | apply total_bind; [|intro]
    | apply total_for_each; intro
    | apply total_lift
    | apply total_with_local
    | match goal with
      | |- total (if ?b then _ else _) => destruct b
      | |- total (match ?x with _ => _ end) => destruct x
      | |- total (let (_, _) := ?x in _) => destruct x
      end
    | prim ].

Lemma total_test_supabase_connection : total test_supabase_connection.
Proof.
  unfold test_supabase_connection. apply total_try_except.
  - no_exit_with no_exit_prim.
  - intro. total_with total_prim.
Qed.

Lemma total_check_pgvector_extension : total check_pgvector_extension.
Proof.
  unfold check_pgvector_extension. apply total_try_except.
  - no_exit_with no_exit_prim.
  - intro. total_with total_prim.
Qed.

Lemma total_execute_migration_file p : total (execute_migration_file p).
Proof.
  unfold execute_migration_file. apply total_try_except.
  - no_exit_with no_exit_prim.
  - intro. total_with total_prim.
Qed.

Lemma total_backup_existing_data : total backup_existing_data.
Proof.
  unfold backup_existing_data. apply total_bind; [total_prim|]. intro t.
  apply total_with_local. apply total_try_except.
  - unfold tables_to_backup, backup_table. cbn [for_each].
    no_exit_with no_exit_prim.
  - intro. total_with total_prim.
Qed.

Lemma total_migrate_existing_embeddings b :
  total (migrate_existing_embeddings b).
Proof.
  unfold migrate_existing_embeddings. apply total_try_except.
  - unfold insert_document, insert_session. no_exit_with no_exit_prim.
  - intro. total_with total_prim.
Qed.

Lemma total_validate_migration : total validate_migration.
Proof.
  unfold validate_migration. apply total_with_local. apply total_try_except.
  - unfold check_table, check_function.
    no_exit_with ltac:(first [ apply no_exit_comprehension; no_exit_prim
                             | no_exit_prim ]).
  - intro. total_with total_prim.
Qed.

Lemma total_schema_migration fs : total (schema_migration fs).
Proof.
  induction fs as [|f fs IH]; simpl.
  - apply total_ret.
  - apply total_bind; [apply total_execute_migration_file|].
    intros [|]; simpl; [assumption|total_with total_prim].
Qed.

Lemma quiet_backup_existing_data : preserves quiet backup_existing_data.
Proof.
  unfold backup_existing_data, tables_to_backup, backup_table.
  cbn [for_each]. preserve_with quiet_op.
Qed.

Lemma quiet_migrate_existing_embeddings b :
  preserves quiet (migrate_existing_embeddings b).
Proof.
  unfold migrate_existing_embeddings, insert_document, insert_session.
  preserve_with quiet_op.
Qed.

Lemma quiet_validate_migration : preserves quiet validate_migration.
Proof.
  unfold validate_migration, check_table, check_function.
  preserve_with quiet_op.
Qed.

(** ** Reading the database *)

#[export] Instance reads_only_preorder : PreOrder reads_only.
Proof.
  split.
  - intro w. unfold reads_only. repeat split; auto.
    exists []. rewrite app_nil_r. auto.
  - intros w1 w2 w3 (S1 & C1 & F1 & X1 & W1 & o1 & O1 & R1)
      (S2 & C2 & F2 & X2 & W2 & o2 & O2 & R2).
    unfold reads_only. repeat split; try congruence.
    exists (o1 ++ o2). rewrite O2, O1, app_assoc, forallb_app, R1, R2. auto.
Qed.

Lemma run_stmt_select s srv : is_select s = true -> snd (run_stmt s srv) = srv.
Proof.
  destruct s; simpl; try discriminate; intros _; try reflexivity;
    destruct (assoc _ _); reflexivity.
Qed.

Lemma reads_only_execute s :
  is_select s = true -> preserves reads_only (execute s).
Proof.
  intros Hs w. unfold execute. destruct (srv_up (server w)).
  - pose proof (run_stmt_select s (server w) Hs) as E.
    destruct (run_stmt s (server w)) as [r srv']. simpl in *. subst.
    unfold reads_only. simpl. repeat split; auto.
    eexists [_]. split; [reflexivity|]. simpl. rewrite Hs. reflexivity.
  - unfold reads_only. simpl. repeat split; auto.
    eexists [_]. split; [reflexivity|]. simpl. rewrite Hs. reflexivity.
Qed.

Ltac reads_only_prim :=
  first
    [ apply reads_only_execute; reflexivity
    | intro;
      unfold logger, print, getenv, datetime_now, read_file, cursor,
        update_results;
      simpl; repeat innermost;
      unfold reads_only; simpl; repeat split; auto;
      exists []; rewrite app_nil_r; auto ].

Lemma reads_only_test_supabase_connection :
  preserves reads_only test_supabase_connection.
Proof. unfold test_supabase_connection. preserve_with reads_only_prim. Qed.

Lemma reads_only_check_pgvector_extension :
  preserves reads_only check_pgvector_extension.
Proof. unfold check_pgvector_extension. preserve_with reads_only_prim. Qed.

(** The value of the two pre-flight checks. *)
Lemma test_supabase_connection_value w :
  fst (test_supabase_connection w) = Ok (connected w).
Proof.
  unfold test_supabase_connection, connected, try_except, bind, cursor,
    execute.
  destruct (conn w); simpl; try reflexivity.
  destruct (srv_up (server w)); reflexivity.
Qed.

Lemma check_pgvector_extension_value w :
  fst (check_pgvector_extension w) = Ok (connected w && vector_available w).
Proof.
  unfold check_pgvector_extension, connected, vector_available, try_except,
    bind, cursor, execute.
  destruct (conn w); simpl; try reflexivity.
  destruct (srv_up (server w)); simpl; [|reflexivity].
  destruct (mem "vector" _); reflexivity.
Qed.

(** ** The schema migration *)

Ltac emits_two b :=
  exists b; split; [reflexivity|]; eexists [_; _]; simpl;
  split; [rewrite <- app_assoc; reflexivity | split; reflexivity].

Lemma execute_migration_file_emits p w :
  exists b, fst (execute_migration_file p w) = Ok b
            /\ emits [p] [(p, b)] w (snd (execute_migration_file p w)).
Proof.
  unfold execute_migration_file, try_except, bind, logger, read_file,
    cursor, execute, ret. simpl.
  destruct (assoc p (files w)) as [sql|]; simpl; [|emits_two false].
  destruct (conn w); simpl; try emits_two false.
  destruct (srv_up (server w)); simpl; [|emits_two false].
  destruct (srv_script (server w) sql (srv_db (server w))) as [[|] db'];
    simpl; [emits_two true|emits_two false].
Qed.

Lemma schema_migration_emits fs w :
  let r := schema_migration fs w in
  (fst r = Ok true /\ emits fs (succeeded fs) w (snd r))
  \/ (exists pre p post,
        fs = pre ++ p :: post /\ fst r = Ok false
        /\ emits (pre ++ [p]) (succeeded pre ++ [(p, false)]) w (snd r)).
Proof.
  revert w. induction fs as [|f fs IH]; intro w; simpl.
  - left. split; [reflexivity|apply emits_refl].
  - unfold bind.
    destruct (execute_migration_file_emits f w) as (b & Hb & He).
    destruct (execute_migration_file f w) as [[b'|e] w1]; simpl in *;
      [|discriminate].
    inversion Hb; subst b'. destruct b; simpl.
    + destruct (IH w1) as [[Hr Hs]|(pre & p & post & Hfs & Hr & Hs)].
      * left. split; [assumption|].
        apply (emits_trans [f] [(f, true)] _ _ _ _ _ He Hs).
      * right. exists (f :: pre), p, post. subst fs. split; [reflexivity|].
        split; [assumption|].
        apply (emits_trans [f] [(f, true)] _ _ _ _ _ He Hs).
    + right. exists [], f, fs. split; [reflexivity|]. split; [reflexivity|].
      unfold logger. simpl.
      destruct He as (l & El & Sl & Ol). exists (l ++ [LMigrationFailedAt f]).
      simpl. rewrite El, <- app_assoc, started_app, outcomes_app, Sl, Ol.
      auto.
Qed.

Lemma test_facts s r s' :
  test_supabase_connection s = (r, s') ->
  r = Ok (connected s) /\ quiet s s' /\ reads_only s s'.
Proof.
  intro E. pose proof (test_supabase_connection_value s) as V.
  pose proof (quiet_test_supabase_connection s) as Q.
  pose proof (reads_only_test_supabase_connection s) as R.
  rewrite E in *. simpl in *. auto.
Qed.

Lemma check_facts s r s' :
  check_pgvector_extension s = (r, s') ->
  r = Ok (connected s && vector_available s) /\ quiet s s'
  /\ reads_only s s'.
Proof.
  intro E. pose proof (check_pgvector_extension_value s) as V.
  pose proof (quiet_check_pgvector_extension s) as Q.
  pose proof (reads_only_check_pgvector_extension s) as R.
  rewrite E in *. simpl in *. auto.
Qed.

Lemma facts {A} (m : M world A) s r s' :
  total m -> preserves quiet m -> m s = (r, s') ->
  (exists a, r = Ok a) /\ quiet s s'.
Proof.
  intros T Q E. specialize (T s). specialize (Q s). rewrite E in *. auto.
Qed.

Lemma reads_only_preflight a b :
  reads_only a b ->
  connected b = connected a /\ vector_available b = vector_available a.
Proof.
  intros (S & C & _). unfold connected, vector_available.
  rewrite S, C. auto.
Qed.

Lemma close_connection_facts s r s' :
  close_connection s = (r, s') ->
  r = Ok tt /\ log s' = log s /\ no_script s s'.
Proof.
  unfold close_connection, no_script.
  destruct (conn s); intro E; inversion E; simpl;
    (split; [reflexivity|]); (split; [reflexivity|]);
    solve [exists []; rewrite app_nil_r; auto | eexists [_]; split; reflexivity].
Qed.

Lemma scripts_app o1 o2 : scripts (o1 ++ o2) = scripts o1 ++ scripts o2.
Proof. unfold scripts. apply flat_map_app. Qed.

Lemma no_script_trans w1 w2 w3 :
  no_script w1 w2 -> no_script w2 w3 -> no_script w1 w3.
Proof.
  intros (o1 & E1 & S1) (o2 & E2 & S2). exists (o1 ++ o2).
  rewrite E2, E1, app_assoc, scripts_app, S1, S2. auto.
Qed.

Lemma reads_have_no_script o : forallb is_read o = true -> scripts o = [].
Proof.
  induction o as [|op o IH]; simpl; [reflexivity|].
  intro H. apply andb_prop in H. destruct H as [H1 H2].
  destruct op as [|st|]; simpl in *; try discriminate.
  destruct st; simpl in *; try discriminate; auto.
Qed.

Lemma reads_only_no_script w w' : reads_only w w' -> no_script w w'.
Proof.
  intros (_ & _ & _ & _ & _ & o & E & R). exists o. split; [assumption|].
  apply reads_have_no_script. assumption.
Qed.

Lemma summary_facts (l : list (string * pyval)) s r s' :
  for_each l (fun tc => logger (LSummaryCount (fst tc) (snd tc))) s = (r, s')
  -> r = Ok tt /\ quiet s s'.
Proof.
  intro E. eapply facts in E.
  - destruct E as [[[] ->] Q]. auto.
  - apply total_for_each. intro. total_prim.
  - apply preserves_for_each; [typeclasses eauto|]. intro. quiet_prim.
Qed.

(** Gathering the growth of the log along a run. *)
Ltac log_links :=
  repeat match goal with
         | H : quiet _ _ |- _ => unfold quiet in H
         | H : emits _ _ _ _ |- _ =>
             let l := fresh "l" in
             let El := fresh "El" in
             let Sl := fresh "Sl" in
             let Ol := fresh "Ol" in
             destruct H as (l & El & Sl & Ol); cbn [log set_log] in El
         end.

Ltac log_chain :=
  unfold quiet, emits; cbn [log set_log fst snd];
  repeat match goal with
         | H : log ?b = _ |- context [log ?b] =>
             rewrite H; cbn [log set_log]
         end;
  repeat rewrite <- app_assoc;
  eexists; split; [reflexivity|];
  repeat rewrite started_app; repeat rewrite outcomes_app;
  repeat match goal with
         | H : started _ = _ |- _ => rewrite H; clear H
         | H : outcomes _ = _ |- _ => rewrite H; clear H
         end;
  simpl; repeat rewrite app_nil_r; auto.

Ltac phases_in E :=
  cbn -[test_supabase_connection check_pgvector_extension
        backup_existing_data schema_migration migrate_existing_embeddings
        validate_migration close_connection for_each migration_files
        connected vector_available] in E.

Lemma run_migration_spec w :
  let r := run_migration w in
  let F := migration_files in
  (connected w && vector_available w = false /\ fst r = Ok false
   /\ quiet w (snd r) /\ no_script w (snd r))
  \/ (connected w && vector_available w = true /\ fst r = Ok true
      /\ emits F (succeeded F) w (snd r))
  \/ (connected w && vector_available w = true
      /\ exists pre p post,
          F = pre ++ p :: post /\ fst r = Ok false
          /\ emits (pre ++ [p]) (succeeded pre ++ [(p, false)]) w (snd r)).
Proof.
  intros r F. subst r. destruct (run_migration w) as [r w'] eqn:E.
  unfold run_migration, try_finally, try_except, bind in E.
  phases_in E.
  match type of E with context [test_supabase_connection ?s] =>
    destruct (test_supabase_connection s) as [r1 w1] eqn:E1 end.
  apply test_facts in E1. destruct E1 as (-> & Q1 & R1).
  destruct (reads_only_preflight _ _ R1) as [C1 V1].
  apply reads_only_no_script in R1.
  change (connected (set_log _ _)) with (connected w) in *.
  change (vector_available (set_log _ _)) with (vector_available w) in *.
  destruct (connected w) eqn:C; phases_in E.
  2:{ destruct (close_connection w1) as [r0 w0] eqn:E0.
      apply close_connection_facts in E0. destruct E0 as (-> & L0 & N0).
      inversion E; subst. left. simpl.
      split; [reflexivity|]. split; [reflexivity|]. split.
      - log_links. log_chain.
      - exact (no_script_trans _ _ _ R1 N0). }
  destruct (check_pgvector_extension w1) as [r2 w2] eqn:E2.
  apply check_facts in E2. destruct E2 as (-> & Q2 & R2).
  apply reads_only_no_script in R2.
  rewrite C1, V1 in E. phases_in E.
  destruct (vector_available w) eqn:V; phases_in E.
  2:{ match type of E with context [close_connection ?s] =>
        destruct (close_connection s) as [r0 w0] eqn:E0 end.
      apply close_connection_facts in E0. destruct E0 as (-> & L0 & N0).
      inversion E; subst. left. simpl.
      split; [reflexivity|]. split; [reflexivity|]. split.
      - log_links. log_chain.
      - exact (no_script_trans _ _ _ R1 (no_script_trans _ _ _ R2 N0)). }
  match type of E with context [backup_existing_data ?s] =>
    destruct (backup_existing_data s) as [r3 w3] eqn:E3 end.
  apply (facts _ _ _ _ total_backup_existing_data quiet_backup_existing_data)
    in E3. destruct E3 as [[bd ->] Q3].
  match type of E with context [schema_migration ?fs ?s] =>
    pose proof (schema_migration_emits fs s) as S4;
    destruct (schema_migration fs s) as [r4 w4] eqn:E4 end.
  simpl in S4.
  destruct S4 as [[-> S4]|(pre & p & post & HF & -> & S4)]; phases_in E.
  2:{ destruct (close_connection w4) as [r0 w0] eqn:E0.
      apply close_connection_facts in E0. destruct E0 as (-> & L0 & _).
      inversion E; subst. right; right. simpl. split; [reflexivity|].
      exists pre, p, post. repeat split; auto.
      log_links. log_chain. }
  match type of E with context [migrate_existing_embeddings ?b ?s] =>
    destruct (migrate_existing_embeddings b s) as [r5 w5] eqn:E5 end.
  apply (facts _ _ _ _ (total_migrate_existing_embeddings _)
           (quiet_migrate_existing_embeddings _)) in E5.
  destruct E5 as [[ok ->] Q5]. phases_in E.
  destruct ok; phases_in E;
    (match type of E with context [validate_migration ?s] =>
       destruct (validate_migration s) as [r7 w7] eqn:E7 end;
     apply (facts _ _ _ _ total_validate_migration quiet_validate_migration)
       in E7; destruct E7 as [[v ->] Q7]; phases_in E;
     match type of E with context [for_each ?l ?f ?s] =>
       destruct (for_each l f s) as [r8 w8] eqn:E8 end;
     apply summary_facts in E8; destruct E8 as [-> Q8]; phases_in E;
     match type of E with context [close_connection ?s] =>
       destruct (close_connection s) as [r0 w0] eqn:E0 end;
     apply close_connection_facts in E0; destruct E0 as (-> & L0 & _);
     inversion E; subst; right; left; simpl; repeat split; auto;
     log_links; log_chain).
Qed.

Lemma new_log_app w w' l : log w' = log w ++ l -> new_log w w' = l.
Proof.
  intro E. unfold new_log. rewrite E. rewrite skipn_app.
  rewrite skipn_all, Nat.sub_diag. reflexivity.
Qed.

Lemma emits_new_log ss os w w' :
  emits ss os w w' ->
  started (new_log w w') = ss /\ outcomes (new_log w w') = os.
Proof.
  intros (l & E & S & O). rewrite (new_log_app _ _ _ E). auto.
Qed.

Lemma nth_error_succeeded fs i p : nth_error (succeeded fs) i <> Some (p, false).
Proof.
  unfold succeeded. rewrite nth_error_map.
  destruct (nth_error fs i); simpl; congruence.
Qed.

Lemma map_fst_succeeded fs : map fst (succeeded fs) = fs.
Proof.
  unfold succeeded. rewrite map_map. simpl. apply map_id.
Qed.

Lemma firstn_prefix {A} (pre : list A) x post :
  firstn (List.length (pre ++ [x])) (pre ++ x :: post) = pre ++ [x].
Proof.
  replace (pre ++ x :: post) with ((pre ++ [x]) ++ post)
    by (rewrite <- app_assoc; reflexivity).
  rewrite firstn_app, Nat.sub_diag, firstn_all. simpl.
  apply app_nil_r.
Qed.

Lemma nth_error_failed pre p i q :
  nth_error (succeeded pre ++ [(p, false)]) i = Some (q, false) ->
  i = List.length pre /\ q = p.
Proof.
  intro H. assert (List.length (succeeded pre) = List.length pre) as L
    by (unfold succeeded; apply length_map).
  destruct (Nat.lt_ge_cases i (List.length pre)) as [Hlt|Hge].
  - rewrite nth_error_app1 in H by lia.
    exfalso. eapply nth_error_succeeded; eassumption.
  - rewrite nth_error_app2 in H by lia. rewrite L in H.
    destruct (i - List.length pre) as [|k] eqn:K; simpl in H.
    + inversion H. split; [lia|reflexivity].
    + destruct k; discriminate.
Qed.

(** ** The schema files are run in list order up to the first failure *)

(** Claim C1.  In every run of [run_migration] the migration files on
    which [execute_migration_file] is entered form an initial segment of
    the list, in list order, and each of these calls comes to an end.  If
    the call at position [i] returns [False], then it is the last one
    (no file at a later position is executed), the file is the one at
    position [i] of the list, and [run_migration] returns [False]. *)
Theorem run_migration_stops_at_first_failure (w : world) :
  let l := new_log w (snd (run_migration w)) in
  started l = firstn (List.length (started l)) migration_files
  /\ map fst (outcomes l) = started l
  /\ forall i p,
       nth_error (outcomes l) i = Some (p, false) ->
       nth_error migration_files i = Some p
       /\ List.length (started l) = S i
       /\ fst (run_migration w) = Ok false.
Proof.
  intro l. subst l.
  destruct (run_migration_spec w)
    as [(_ & Hr & He & _)|[(_ & Hr & He)
                           |(_ & pre & p & post & HF & Hr & He)]];
    apply emits_new_log in He; destruct He as [Hs Ho]; rewrite Hs, Ho.
  - simpl. split; [reflexivity|]. split; [reflexivity|].
    intros i p H. destruct i; discriminate.
  - rewrite firstn_all, map_fst_succeeded.
    split; [reflexivity|]. split; [reflexivity|].
    intros i p H. exfalso. eapply nth_error_succeeded; eassumption.
  - rewrite HF, firstn_prefix. split; [reflexivity|]. split.
    + rewrite map_app, map_fst_succeeded. reflexivity.
    + intros i q H. apply nth_error_failed in H. destruct H as [-> ->].
      rewrite nth_error_app2, Nat.sub_diag by lia. simpl.
      rewrite length_app. simpl. repeat split; auto. lia.
Qed.

Lemma run_migration_stops_at_first_failure_witness :
  let w := Scenario.second_file_broken in
  let l := new_log w (snd (run_migration w)) in
  nth_error (outcomes l) 1 = Some ("migrations/001_create_rag_schema.sql", false)
  /\ nth_error migration_files 1 = Some "migrations/001_create_rag_schema.sql"
  /\ List.length (started l) = 2
  /\ fst (run_migration w) = Ok false.
Proof.
  split; [vm_compute; reflexivity|].
  apply (proj2 (proj2 (run_migration_stops_at_first_failure
                         Scenario.second_file_broken))
           1 "migrations/001_create_rag_schema.sql").
  vm_compute. reflexivity.
Defined.

(** ** Without the vector extension no schema file is run *)

Lemma new_ops_app w w' o : ops w' = ops w ++ o -> new_ops w w' = o.
Proof.
  intro E. unfold new_ops. rewrite E. rewrite skipn_app.
  rewrite skipn_all, Nat.sub_diag. reflexivity.
Qed.

(** Claim C6.  When the server does not offer the vector extension,
    [check_pgvector_extension] returns [False], and [run_migration]
    returns [False] without having entered [execute_migration_file] and
    without having sent any migration text to the database. *)
Theorem missing_vector_extension_halts_migration (w : world) :
  vector_available w = false ->
  fst (check_pgvector_extension w) = Ok false
  /\ fst (run_migration w) = Ok false
  /\ started (new_log w (snd (run_migration w))) = []
  /\ scripts (new_ops w (snd (run_migration w))) = [].
Proof.
  intro V. split.
  - rewrite check_pgvector_extension_value, V. apply f_equal, andb_false_r.
  - destruct (run_migration_spec w)
      as [(_ & Hr & He & (o & Eo & So))|[(P & _)|(P & _)]];
      try (rewrite V, andb_false_r in P; discriminate).
    apply emits_new_log in He. destruct He as [Hs _].
    rewrite (new_ops_app _ _ _ Eo). auto.
Qed.

Lemma missing_vector_extension_halts_migration_witness :
  let w := Scenario.no_vector in
  vector_available w = false
  /\ fst (check_pgvector_extension w) = Ok false
  /\ fst (run_migration w) = Ok false
  /\ started (new_log w (snd (run_migration w))) = []
  /\ scripts (new_ops w (snd (run_migration w))) = [].
Proof.
  split; [reflexivity|].
  apply (missing_vector_extension_halts_migration Scenario.no_vector).
  reflexivity.
Defined.

(** ** What makes [run_migration] fail, and the exit status *)

Lemma total_run_migration : total run_migration.
Proof.
  intro w.
  destruct (run_migration_spec w)
    as [(_ & Hr & _)|[(_ & Hr & _)|(_ & pre & p & post & _ & Hr & _)]];
    eauto.
Qed.

Lemma no_exit_validate_environment : no_exit validate_environment.
Proof.
  intros w e. unfold validate_environment.
  destruct (filter _ required_vars); simpl; intro H; inversion H.
  reflexivity.
Qed.

Lemma no_exit_try_except_reraise {St A} (body : M St A) handler :
  no_exit body ->
  (forall e, is_Exception e = true -> no_exit (handler e)) ->
  no_exit (try_except body handler).
Proof.
  intros Hb Hh s e. unfold try_except. specialize (Hb s).
  destruct (body s) as [[a|e'] s1]; simpl in *; [discriminate|].
  rewrite (Hb e' eq_refl). apply Hh. apply Hb. reflexivity.
Qed.

Lemma no_exit_setup_connections : no_exit setup_connections.
Proof.
  unfold setup_connections. apply no_exit_try_except_reraise.
  - no_exit_with no_exit_prim.
  - intros e He. apply no_exit_bind; [apply total_no_exit; total_prim|].
    intro. apply no_exit_raise. assumption.
Qed.

Lemma no_exit_init : no_exit init.
Proof.
  unfold init. apply no_exit_bind; [apply total_no_exit; total_prim|].
  intro. apply no_exit_bind; [apply no_exit_validate_environment|].
  intro. apply no_exit_setup_connections.
Qed.

Lemma succeeded_no_failure fs p : ~ In (p, false) (succeeded fs).
Proof.
  unfold succeeded. rewrite in_map_iff. intros (x & H & _). discriminate.
Qed.

(** Claim C8.  [run_migration] always returns a boolean, and it returns
    [False] exactly when a pre-flight check returns [False] or some call
    of [execute_migration_file] returns [False]: nothing else, neither
    the outcome of the data replay nor the contents of the validation
    report, enters its result.  The process exits with status 0 exactly
    when the orchestrator could be constructed and [run_migration]
    returned [True], and with status 1 otherwise. *)
Theorem run_migration_result_and_exit_status (w : world) :
  let l := new_log w (snd (run_migration w)) in
  (exists b,
      fst (run_migration w) = Ok b
      /\ (b = false <->
          fst (test_supabase_connection w) = Ok false
          \/ fst (check_pgvector_extension w) = Ok false
          \/ exists p, In (p, false) (outcomes l)))
  /\ (exit_code w = 0%Z <->
      fst (init w) = Ok tt
      /\ fst (run_migration (snd (init w))) = Ok true)
  /\ (exit_code w = 0%Z \/ exit_code w = 1%Z).
Proof.
  intro l. subst l. split.
  - rewrite test_supabase_connection_value, check_pgvector_extension_value.
    destruct (run_migration_spec w)
      as [(P & Hr & He & _)|[(P & Hr & He)
                             |(P & pre & p & post & HF & Hr & He)]];
      apply emits_new_log in He; destruct He as [_ Ho]; rewrite Ho.
    + exists false. split; [assumption|]. split; [|reflexivity].
      intros _. destruct (connected w); simpl in *.
      * right; left. rewrite P. reflexivity.
      * left. reflexivity.
    + exists true. split; [assumption|]. split; [discriminate|].
      intros [H|[H|[q H]]].
      * apply andb_prop in P. destruct P as [P _]. rewrite P in H.
        discriminate.
      * rewrite P in H. discriminate.
      * exfalso. eapply succeeded_no_failure; eassumption.
    + exists false. split; [assumption|]. split; [|reflexivity].
      intros _. right; right. exists p. apply in_or_app. right. left.
      reflexivity.
  - unfold exit_code, main, try_except, bind.
    pose proof (no_exit_init w) as NI.
    destruct (init w) as [[[]|e] w1]; simpl in *.
    + destruct (total_run_migration w1) as [b Hb].
      destruct (run_migration w1) as [[b'|e] w2]; simpl in *;
        [|discriminate].
      inversion Hb; subst b'.
      destruct b; cbn;
        (split;
         [ split;
           [ intro H; try discriminate H; split; reflexivity
           | intros [_ H]; first [reflexivity | discriminate H] ]
         | first [left; reflexivity | right; reflexivity] ]).
    + rewrite (NI e eq_refl). cbn. split; [|right; reflexivity].
      split; [discriminate|]. intros [H _]. discriminate.
Qed.

(** A run in which the data replay fails and the validation report
    names no function: the result is [True] all the same. *)
Example replay_failure_is_only_a_warning :
  let w := Scenario.sessions_without_index in
  fst (migrate_existing_embeddings
         {| bd_timestamp := "t";
            bd_tables := [("user_sessions", [Scenario.session 1 "s-1"])] |}
         w) = Ok false
  /\ In LDataMigrationIssues (log (snd (run_migration w)))
  /\ In (LSummaryFunctions 0) (log (snd (run_migration w)))
  /\ fst (run_migration w) = Ok true.
Proof. vm_compute. intuition. Qed.

(** ** A missing migration file *)

(** Claim C4 fails as stated: on a path that names no file,
    [execute_migration_file] returns [False]; it does not raise. *)
Lemma missing_file_exception_does_not_propagate :
  let w := Scenario.first_file_missing in
  let p := "migrations/000_add_pgvector.sql" in
  assoc p (files w) = None
  /\ fst (execute_migration_file p w) = Ok false
  /\ forall e, fst (execute_migration_file p w) <> Raise e.
Proof.
  split; [reflexivity|]. split; [reflexivity|]. intros e H. vm_compute in H.
  discriminate H.
Qed.

(** Claim C4, amended.  When the path names no file, the
    [FileNotFoundError] is caught inside [execute_migration_file]: the
    function logs the failure with that exception and returns [False],
    and nothing has been sent to the database. *)
Theorem missing_migration_file_is_reported (w : world) (file_path : string) :
  assoc file_path (files w) = None ->
  let w' := snd (execute_migration_file file_path w) in
  fst (execute_migration_file file_path w) = Ok false
  /\ new_log w w' =
     [LExecuting file_path;
      LMigrationFailed file_path (FileNotFoundError file_path)]
  /\ ops w' = ops w
  /\ server w' = server w.
Proof.
  intro H. unfold execute_migration_file, try_except, bind, logger, read_file.
  simpl. rewrite H. simpl. repeat split.
  apply new_log_app. simpl. rewrite <- app_assoc. reflexivity.
Qed.

Lemma missing_migration_file_is_reported_witness :
  let w := Scenario.first_file_missing in
  let p := "migrations/000_add_pgvector.sql" in
  let w' := snd (execute_migration_file p w) in
  assoc p (files w) = None
  /\ fst (execute_migration_file p w) = Ok false
  /\ new_log w w' = [LExecuting p; LMigrationFailed p (FileNotFoundError p)]
  /\ ops w' = ops w
  /\ server w' = server w.
Proof.
  split; [reflexivity|].
  apply (missing_migration_file_is_reported Scenario.first_file_missing
           "migrations/000_add_pgvector.sql").
  reflexivity.
Defined.

(** ** The required configuration variables *)

(** Claim C5 fails as stated: with every required variable present,
    one of them set to the empty string, [validate_environment]
    raises. *)
Lemma empty_variable_counts_as_missing :
  let w := Scenario.empty_api_key in
  (forall var, In var required_vars -> assoc var (environ w) <> None)
  /\ raises validate_environment w.
Proof.
  split.
  - intros var [<-|[<-|[<-|[<-|[]]]]]; vm_compute; discriminate.
  - eexists. vm_compute. reflexivity.
Qed.

Lemma not_getenv_spec var w :
  not_getenv var w = true <->
  assoc var (environ w) = None \/ assoc var (environ w) = Some EmptyString.
Proof.
  unfold not_getenv. destruct (assoc var (environ w)) as [[|c v]|].
  - split; auto.
  - split; [discriminate|]. intros [H|H]; discriminate.
  - split; auto.
Qed.

(** Claim C5, amended.  [validate_environment] raises if and only if at
    least one required variable is unset or set to the empty string, and
    it returns normally otherwise.  It performs no database operation;
    in particular, when it raises inside [__init__], the constructor
    raises the same exception and no database operation has occurred,
    the connection not even having been created. *)
Theorem validate_environment_raises_iff_unset_or_empty (w : world) :
  (raises validate_environment w <->
   exists var,
     In var required_vars
     /\ (assoc var (environ w) = None
         \/ assoc var (environ w) = Some EmptyString))
  /\ (~ raises validate_environment w ->
      fst (validate_environment w) = Ok tt)
  /\ ops (snd (validate_environment w)) = ops w
  /\ (forall e,
        fst (validate_environment (snd (load_dotenv w))) = Raise e ->
        fst (init w) = Raise e
        /\ ops (snd (init w)) = ops w
        /\ conn (snd (init w)) = conn w).
Proof.
  unfold raises. repeat split.
  - intros [e H]. unfold validate_environment in H.
    destruct (filter _ required_vars) as [|var rest] eqn:F; [discriminate|].
    assert (In var (filter (fun v => not_getenv v w) required_vars)) as I
      by (rewrite F; left; reflexivity).
    apply filter_In in I. destruct I as [I1 I2]. exists var.
    split; [assumption|]. apply not_getenv_spec. assumption.
  - intros (var & I & H). apply not_getenv_spec in H.
    unfold validate_environment.
    destruct (filter _ required_vars) as [|v rest] eqn:F.
    + assert (In var (filter (fun v => not_getenv v w) required_vars)) as I'
        by (apply filter_In; auto). rewrite F in I'. destruct I'.
    + eexists. reflexivity.
  - intro N. unfold validate_environment in *.
    destruct (filter _ required_vars); [reflexivity|].
    exfalso. apply N. eexists. reflexivity.
  - unfold validate_environment.
    destruct (filter _ required_vars); reflexivity.
  - unfold init, bind. simpl.
    destruct (validate_environment _) as [[u|e'] w1]; simpl in *;
      congruence.
  - unfold init, bind. simpl. unfold validate_environment in *.
    destruct (filter _ required_vars); simpl in *; [discriminate|].
    reflexivity.
  - unfold init, bind. simpl. unfold validate_environment in *.
    destruct (filter _ required_vars); simpl in *; [discriminate|].
    reflexivity.
Qed.

Lemma validate_environment_raises_iff_unset_or_empty_witness :
  let w := Scenario.unset_api_key in
  let e := ValueError "Missing environment variables" ["OPENAI_API_KEY"] in
  raises validate_environment w
  /\ fst (validate_environment (snd (load_dotenv w))) = Raise e
  /\ fst (init w) = Raise e
  /\ ops (snd (init w)) = ops w
  /\ conn (snd (init w)) = conn w.
Proof.
  split.
  - apply (proj2 (proj1 (validate_environment_raises_iff_unset_or_empty
                           Scenario.unset_api_key))).
    exists "OPENAI_API_KEY". split; [simpl; auto 10|left; reflexivity].
  - split; [reflexivity|].
    apply (proj2 (proj2 (proj2 (validate_environment_raises_iff_unset_or_empty
                                  Scenario.unset_api_key)))).
    reflexivity.
Defined.

(** ** The backup *)

Lemma mem_assoc {A} t (d : list (string * A)) :
  mem t (map fst d) = match assoc t d with Some _ => true | None => false end.
Proof.
  induction d as [|[k v] d IH]; simpl; [reflexivity|].
  destruct (String.eqb t k); simpl; auto.
Qed.

(** One turn of the loop of [backup_existing_data], on a server that
    answers. *)
Lemma backup_table_step t bd w :
  srv_up (server w) = true ->
  exists w',
    backup_table (t, SelectAllLimit t 1000) (bd, w)
    = (Ok tt,
       (if table_exists t w then set_rows t (snapshot t w) bd else bd, w'))
    /\ same_env w w'
    /\ log w' = log w ++
                 [if table_exists t w
                  then LBackedUp (List.length (snapshot t w)) t
                  else LTableSkipped t]
    /\ ops w' = ops w ++
                 (OpExecute (SelectTableExists t)
                  :: if table_exists t w
                     then [OpExecute (SelectAllLimit t 1000)] else []).
Proof.
  intro U. unfold backup_table, table_exists, snapshot.
  unfold try_except, bind, lift, execute, get_local, set_local, logger,
    fetchone_0, fetchone, ret, run_stmt.
  cbn -[firstn mem assoc]. rewrite U. cbn -[firstn mem assoc].
  rewrite mem_assoc.
  destruct (assoc t (db_tables (srv_db (server w)))) as [tb|] eqn:A;
    cbn -[firstn mem assoc]; rewrite ?U; cbn -[firstn mem assoc];
    rewrite ?A; cbn -[firstn mem assoc];
    eexists; (split; [reflexivity|]); unfold same_env; cbn;
    rewrite <- ?app_assoc; repeat split; reflexivity.
Qed.


Lemma same_env_trans w1 w2 w3 : same_env w1 w2 -> same_env w2 w3 -> same_env w1 w3.
Proof. unfold same_env. intuition congruence. Qed.

Lemma same_env_snapshot w w' t :
  same_env w w' ->
  snapshot t w' = snapshot t w /\ table_exists t w' = table_exists t w.
Proof.
  intros (_ & _ & _ & _ & _ & _ & S & _). unfold snapshot, table_exists.
  rewrite S. auto.
Qed.

Lemma backup_existing_data_up w :
  conn w = Open -> srv_up (server w) = true ->
  exists w3,
    same_env w w3
    /\ backup_existing_data w
       = (Ok (snapshot_backup w),
          if fs_writable w
          then set_log (log w3 ++ [LBackupSaved (backup_file w)])
                 (set_written
                    (written w ++ [(backup_file w, snapshot_backup w)]) w3)
          else set_log
                 (log w3 ++
                  [LBackupFailed (PermissionError (backup_file w))]) w3)
    /\ log w3 = log w ++
                 map (fun t => if table_exists t w
                               then LBackedUp (List.length (snapshot t w)) t
                               else LTableSkipped t)
                     ["rag_documents"; "user_sessions";
                      "conversation_messages"]
    /\ exists o, ops w3 = ops w ++ o /\ forallb is_read o = true.
Proof.
  intros C U.
  destruct (backup_table_step "rag_documents" (empty_backup w) w U)
    as (w1 & E1 & S1 & L1 & O1).
  assert (srv_up (server w1) = true) as U1
    by (destruct S1 as (_ & _ & _ & _ & _ & _ & -> & _); exact U).
  destruct (backup_table_step "user_sessions"
              (capture w (empty_backup w) "rag_documents") w1 U1)
    as (w2 & E2 & S2 & L2 & O2).
  pose proof (same_env_trans _ _ _ S1 S2) as S12.
  assert (srv_up (server w2) = true) as U2
    by (destruct S12 as (_ & _ & _ & _ & _ & _ & -> & _); exact U).
  destruct (backup_table_step "conversation_messages"
              (capture w (capture w (empty_backup w) "rag_documents")
                 "user_sessions") w2 U2)
    as (w3 & E3 & S3 & L3 & O3).
  pose proof (same_env_trans _ _ _ S12 S3) as S13.
  destruct (same_env_snapshot _ _ "user_sessions" S1) as [X1 X2].
  destruct (same_env_snapshot _ _ "conversation_messages" S12) as [X3 X4].
  rewrite X1, X2 in *. rewrite X3, X4 in *. clear X1 X2 X3 X4.
  fold (capture w (capture w (empty_backup w) "rag_documents")
          "user_sessions") in E2.
  fold (capture w (capture w (capture w (empty_backup w) "rag_documents")
                     "user_sessions") "conversation_messages") in E3.
  fold (capture w (empty_backup w) "rag_documents") in E1.
  change (capture w (capture w (capture w (empty_backup w) "rag_documents")
                       "user_sessions") "conversation_messages")
    with (snapshot_backup w) in E3.
  exists w3. split; [assumption|]. split.
  - unfold backup_existing_data, tables_to_backup, with_local, try_except.
    cbn [for_each]. unfold bind, datetime_now, lift at 1, cursor.
    cbn [fst snd]. rewrite C. fold (empty_backup w). rewrite E1, E2, E3.
    destruct S13 as (_ & _ & _ & SW & SR & SN & _).
    unfold lift, datetime_now, get_local, write_json, logger, backup_file.
    unfold ret. cbn -[snapshot_backup append]. rewrite SW, SN, SR.
    destruct (fs_writable w); cbn -[snapshot_backup append]; reflexivity.
  - split.
    + rewrite L3, L2, L1. cbn [map]. rewrite <- !app_assoc. reflexivity.
    + rewrite O3, O2, O1. rewrite <- !app_assoc. eexists.
      split; [reflexivity|].
      destruct (table_exists "rag_documents" w),
        (table_exists "user_sessions" w),
        (table_exists "conversation_messages" w); reflexivity.
Qed.



Lemma rows_of_snapshot_backup t w :
  In t (map fst tables_to_backup) ->
  rows_of t (snapshot_backup w) = snapshot t w.
Proof.
  unfold snapshot_backup, capture, empty_backup, rows_of, set_rows.
  cbn [fold_left]. unfold table_exists, snapshot, tables_to_backup.
  cbn [map fst].
  intros [<-|[<-|[<-|[]]]];
    destruct (assoc "rag_documents" (db_tables _)),
      (assoc "user_sessions" (db_tables _)),
      (assoc "conversation_messages" (db_tables _)); reflexivity.
Qed.






(** ** The data replay *)

#[export] Instance writes_only_preorder ts : PreOrder (writes_only ts).
Proof.
  split.
  - intro w. split; [exists []; rewrite app_nil_r; auto|auto].
  - intros w1 w2 w3 [(o1 & O1 & F1) T1] [(o2 & O2 & F2) T2]. split.
    + exists (o1 ++ o2). rewrite O2, O1, app_assoc, forallb_app, F1, F2.
      auto.
    + intros t H. rewrite T2, T1 by assumption. reflexivity.
Qed.

Lemma assoc_assign_other {A} k t (v : A) d :
  String.eqb k t = false -> assoc k (assign t v d) = assoc k d.
Proof.
  intro N. induction d as [|[k' v'] d IH]; simpl.
  - rewrite N. reflexivity.
  - destruct (String.eqb t k') eqn:E; simpl.
    + apply String.eqb_eq in E. subst k'. rewrite N. reflexivity.
    + destruct (String.eqb k k'); auto.
Qed.


Lemma mem_false_neq t t' ts :
  mem t ts = false -> mem t' ts = true -> String.eqb t t' = false.
Proof.
  intros H H'. destruct (String.eqb t t') eqn:E; [|reflexivity].
  apply String.eqb_eq in E. subst. congruence.
Qed.

Lemma writes_only_insert ts t target r :
  mem t ts = true ->
  preserves (writes_only ts)
    (execute (InsertOnConflictDoNothing t target r)).
Proof.
  intros I w. unfold execute, writes_only.
  destruct (srv_up (server w)) eqn:U; cbn [run_stmt].
  - destruct (assoc t (db_tables (srv_db (server w)))) as [tb|] eqn:A.
    + destruct (insert_on_conflict_do_nothing target r tb) as [tb'|e];
        cbn; (split; [eexists [_]; split; [reflexivity|cbn; rewrite I;
                                            reflexivity]|]).
      * intros t' N. unfold table_rows. cbn.
        rewrite assoc_assign_other by (eapply mem_false_neq; eassumption).
        reflexivity.
      * intros t' N. unfold table_rows. cbn. destruct (server w).
        reflexivity.
    + cbn. split; [eexists [_]; split; [reflexivity|cbn; rewrite I;
                                         reflexivity]|].
      intros t' N. unfold table_rows. cbn. destruct (server w). reflexivity.
  - cbn. split; [eexists [_]; split; [reflexivity|cbn; rewrite I;
                                       reflexivity]|].
    intros. reflexivity.
Qed.

Ltac writes_only_prim :=
  first
    [ apply writes_only_insert; reflexivity
    | intro;
      unfold logger, cursor; cbn; repeat innermost;
      (split; [exists []; rewrite app_nil_r; auto|intros; reflexivity]) ].

Lemma writes_only_documents docs :
  preserves (writes_only ["rag_documents"])
    (cursor;; for_each docs insert_document).
Proof. unfold insert_document. preserve_with writes_only_prim. Qed.

Lemma writes_only_migrate_existing_embeddings b :
  preserves (writes_only ["rag_documents"; "user_sessions"])
    (migrate_existing_embeddings b).
Proof.
  unfold migrate_existing_embeddings, insert_document, insert_session.
  preserve_with writes_only_prim.
Qed.




(** *** INSERT ... ON CONFLICT DO NOTHING *)






















(** ** What the replay leaves out *)

(** Claim C9: conversation_messages is one of the tables
    [backup_existing_data] captures (on a usable connection its rows, up
    to the cap, are in the structure returned), but
    [migrate_existing_embeddings] never replays them: whatever the
    backup, the only database operations of the replay are INSERTs into
    rag_documents and user_sessions, the conversation_messages table is
    left as it was, and the replay (result, database, log) is the same
    whatever rows the backup holds for conversation_messages. *)
Theorem conversation_messages_backed_up_never_replayed
  (old new : world) (b : backup_data) :
  connected old = true ->
  In "conversation_messages" (map fst tables_to_backup)
  /\ (exists bd,
        fst (backup_existing_data old) = Ok bd
        /\ rows_of "conversation_messages" bd
           = snapshot "conversation_messages" old)
  /\ (let new' := snd (migrate_existing_embeddings b new) in
      (exists o, ops new' = ops new ++ o
                 /\ forallb (is_insert_into ["rag_documents"; "user_sessions"])
                      o = true)
      /\ table_rows "conversation_messages" new'
         = table_rows "conversation_messages" new)
  /\ forall rows,
      migrate_existing_embeddings (set_rows "conversation_messages" rows b)
        new
      = migrate_existing_embeddings b new.
Proof.
  intro C. unfold connected in C. destruct (conn old) eqn:CO; try discriminate.
  split; [cbn; auto|]. split.
  - destruct (backup_existing_data_up old CO C) as (w3 & _ & E & _).
    exists (snapshot_backup old). split; [rewrite E; reflexivity|].
    apply rows_of_snapshot_backup. cbn; auto.
  - split.
    + destruct (writes_only_migrate_existing_embeddings b new) as [O T].
      split; [exact O|]. apply T. reflexivity.
    + intro rows. unfold migrate_existing_embeddings, rows_of, set_rows.
      cbn [bd_tables].
      rewrite !assoc_assign_other by reflexivity. reflexivity.
Qed.

Lemma conversation_messages_backed_up_never_replayed_witness :
  let old := Scenario.old_tables in
  let new := Scenario.freshly_migrated in
  connected old = true
  /\ exists bd,
      fst (backup_existing_data old) = Ok bd
      /\ rows_of "conversation_messages" bd = [Scenario.message 1 "hello"]
      /\ table_rows "conversation_messages"
           (snd (migrate_existing_embeddings bd new)) = Some [].
Proof.
  split; [reflexivity|].
  destruct (conversation_messages_backed_up_never_replayed
              Scenario.old_tables Scenario.freshly_migrated
              (snapshot_backup Scenario.old_tables) eq_refl)
    as (_ & (bd & E & R) & (_ & T) & _).
  assert (bd = snapshot_backup Scenario.old_tables) as ->
      by (vm_compute in E; inversion E; reflexivity).
  exists (snapshot_backup Scenario.old_tables).
  split; [exact E|]. split; [exact R|]. exact T.
Defined.

(** Claim C3 fails as stated: a backup whose first document cannot be
    inserted (it has no id) has its user_sessions row left out; the
    function returns False and user_sessions stays empty. *)
Lemma failed_documents_abort_sessions :
  let b := Scenario.backup_with_bad_document in
  let w := Scenario.freshly_migrated in
  let w' := snd (migrate_existing_embeddings b w) in
  rows_of "user_sessions" b = [Scenario.session 1 "s-1"]
  /\ fst (migrate_existing_embeddings b w) = Ok false
  /\ table_rows "user_sessions" w' = Some []
  /\ existsb (is_insert_into ["user_sessions"]) (new_ops w w') = false
  /\ exists e, new_log w w'
               = [LMigratingEmbeddings; LEmbeddingMigrationFailed e].
Proof.
  repeat (split; [vm_compute; reflexivity|]).
  eexists. vm_compute. reflexivity.
Qed.

Lemma writes_only_replay_of_documents docs :
  preserves (writes_only ["rag_documents"])
    (logger LMigratingEmbeddings;; cursor;; for_each docs insert_document).
Proof. unfold insert_document. preserve_with writes_only_prim. Qed.

(** The replay of the documents raises nothing but an [Exception]. *)
Lemma no_exit_documents docs :
  no_exit (logger LMigratingEmbeddings;; cursor;;
           for_each docs insert_document).
Proof. unfold insert_document. no_exit_with no_exit_prim. Qed.

(** Claim C3, amended.  [migrate_existing_embeddings] has one handler
    for the whole function: when the replay of the rag_documents rows
    raises an error, the error is caught and logged, the function
    returns False, and the replay of the remaining table does not take
    place: the state is the one the failed loop left, with the error
    logged, no INSERT into user_sessions has been sent and user_sessions
    is as it was. *)
Theorem first_replay_failure_aborts_the_rest
  (b : backup_data) (w : world) (e : exn) :
  rows_of "rag_documents" b <> [] ->
  let documents :=
    logger LMigratingEmbeddings;; cursor;;
    for_each (rows_of "rag_documents" b) insert_document in
  fst (documents w) = Raise e ->
  let w' := snd (migrate_existing_embeddings b w) in
  migrate_existing_embeddings b w
  = (Ok false,
     set_log (log (snd (documents w)) ++ [LEmbeddingMigrationFailed e])
       (snd (documents w)))
  /\ (exists o, ops w' = ops w ++ o
                /\ forallb (is_insert_into ["rag_documents"]) o = true)
  /\ table_rows "user_sessions" w' = table_rows "user_sessions" w.
Proof.
  intros N documents R w'.
  assert (is_Exception e = true) as X
      by exact (no_exit_documents _ w e R).
  assert (migrate_existing_embeddings b w
          = (Ok false,
             set_log (log (snd (documents w))
                      ++ [LEmbeddingMigrationFailed e])
               (snd (documents w)))) as E.
  { subst documents. unfold migrate_existing_embeddings.
    destruct (rows_of "rag_documents" b) as [|d ds]; [contradiction|].
    unfold try_except, bind, logger in *.
    cbn [fst snd] in *.
    destruct (cursor _) as [[u|e1] w1].
    - destruct (for_each (d :: ds) insert_document w1) as [[u'|e2] w2].
      + discriminate.
      + cbn [fst snd] in *. inversion R; subst e2. rewrite X. reflexivity.
    - cbn [fst snd] in *. inversion R; subst e1. rewrite X. reflexivity. }
  split; [exact E|].
  subst w'. rewrite E. cbn [snd].
  destruct (writes_only_replay_of_documents (rows_of "rag_documents" b) w)
    as [O T].
  split; [exact O|]. apply T. reflexivity.
Qed.

Lemma first_replay_failure_aborts_the_rest_witness :
  let b := Scenario.backup_with_bad_document in
  let w := Scenario.freshly_migrated in
  let w' := snd (migrate_existing_embeddings b w) in
  rows_of "rag_documents" b <> []
  /\ rows_of "user_sessions" b <> []
  /\ fst (migrate_existing_embeddings b w) = Ok false
  /\ table_rows "user_sessions" w' = table_rows "user_sessions" w.
Proof.
  intros b w w'.
  split; [discriminate|]. split; [discriminate|].
  let v := eval vm_compute in
             (fst ((logger LMigratingEmbeddings;; cursor;;
                    for_each (rows_of "rag_documents" b) insert_document) w))
  in match v with
     | Raise ?e =>
         destruct (first_replay_failure_aborts_the_rest b w e)
           as (E & _ & T);
         [discriminate|vm_compute; reflexivity|]
     end.
  split; [rewrite E; reflexivity|exact T].
Defined.

(** ** The confidence score *)

Section ConfidenceScore.
Import Summarize.
Local Open Scope Q_scope.

Lemma py_min_le_r a b : py_min a b <= b.
Proof.
  unfold py_min. destruct (Qle_bool a b) eqn:E.
  - apply Qle_bool_iff. assumption.
  - apply Qle_refl.
Qed.

Lemma py_min_ge a b c : c <= a -> c <= b -> c <= py_min a b.
Proof. unfold py_min. destruct (Qle_bool a b); auto. Qed.

Lemma Qlt_bool_true a b : Qlt_bool a b = true -> a < b.
Proof.
  unfold Qlt_bool. intro H. apply Qnot_le_lt. intro L.
  apply Qle_bool_iff in L. rewrite L in H. discriminate.
Qed.

Lemma len_nonneg {A} (l : list A) : 0 <= len l.
Proof.
  unfold len, Qle. simpl. lia.
Qed.

Lemma len_filter {A} f (l : list A) : len (filter f l) <= len l.
Proof.
  unfold len. rewrite <- Zle_Qle. apply inj_le. apply filter_length_le.
Qed.

(** A success rate: the share of the lines that pass. *)
Lemma rate_range {A} f (l : list A) :
  Qlt_bool 0 (len l) = true ->
  0 <= len (filter f l) / len l <= 1.
Proof.
  intro H. apply Qlt_bool_true in H. split.
  - apply Qle_shift_div_l; [assumption|].
    rewrite Qmult_0_l. apply len_nonneg.
  - apply Qle_shift_div_r; [assumption|].
    rewrite Qmult_1_l. apply len_filter.
Qed.

(** Case analysis on the conditions of an analyzer, keeping what the
    tests on the line counts say. *)
Ltac score_cases :=
  repeat match goal with
    | |- context [if Qlt_bool 0 (len ?l) then _ else _] =>
        let H := fresh "H" in
        destruct (Qlt_bool 0 (len l)) eqn:H
    | |- context [match ?x with _ => _ end] =>
        lazymatch x with
        | context [match _ with _ => _ end] => fail
        | _ => destruct x
        end
    end.

Ltac rates :=
  repeat match goal with
    | H : Qlt_bool 0 (len ?l) = true |- context [len (filter ?f ?l) / len ?l] =>
        let R := fresh "R" in
        pose proof (rate_range f l H) as R;
        generalize dependent (len (filter f l) / len l); intros
    end.

(** Linear arithmetic, once the division by the constant 100 is a
    product. *)
Ltac linear :=
  unfold Qdiv; try change (/ 100) with (1 # 100); lra.

Lemma analyze_deployment_results_range d :
  0 <= analyze_deployment_results d <= 100.
Proof.
  unfold analyze_deployment_results.
  score_cases; rates;
    try (split; [apply py_min_ge|apply py_min_le_r]); linear.
Qed.

Lemma analyze_security_results_range d :
  0 <= analyze_security_results d <= 100.
Proof.
  unfold analyze_security_results.
  score_cases; rates;
    try (split; [apply py_min_ge|apply py_min_le_r]); linear.
Qed.

Lemma analyze_performance_results_range d :
  0 <= analyze_performance_results d <= 100.
Proof.
  unfold analyze_performance_results.
  split; [apply py_min_ge; [|lra]|apply py_min_le_r].
  unfold k6_score, curl_score. score_cases; lra.
Qed.

Lemma analyze_integration_results_range d :
  0 <= analyze_integration_results d <= 100.
Proof.
  unfold analyze_integration_results.
  score_cases; rates; linear.
Qed.

Lemma analyze_hipaa_results_le d : analyze_hipaa_results d <= 100.
Proof.
  unfold analyze_hipaa_results.
  score_cases; try apply py_min_le_r; lra.
Qed.


Lemma hipaa_endpoint_score_ge d s : s <= hipaa_endpoint_score d s.
Proof.
  unfold hipaa_endpoint_score. score_cases; rates; linear.
Qed.


Lemma weighted_score d :
  fst (calculate_confidence_score d)
  == analyze_deployment_results d * 0.20
     + analyze_security_results d * 0.20
     + analyze_hipaa_results d * 0.25
     + analyze_performance_results d * 0.20
     + analyze_integration_results d * 0.15.
Proof.
  unfold calculate_confidence_score, scores. cbn [accumulate fst].
  change (weight "deployment") with 0.20.
  change (weight "security") with 0.20.
  change (weight "hipaa") with 0.25.
  change (weight "performance") with 0.20.
  change (weight "integration") with 0.15.
  lra.
Qed.

(** *** Further properties of the analyzers *)

(** Whatever the result files hold, no analyzer returns more than 100,
    the deployment, security, performance and integration analyzers
    return nothing below 0, and the overall score is at most 100. *)
Theorem confidence_score_at_most_100 d :
  0 <= analyze_deployment_results d <= 100
  /\ 0 <= analyze_security_results d <= 100
  /\ analyze_hipaa_results d <= 100
  /\ 0 <= analyze_performance_results d <= 100
  /\ 0 <= analyze_integration_results d <= 100
  /\ fst (calculate_confidence_score d) <= 100.
Proof.
  pose proof (analyze_deployment_results_range d) as D.
  pose proof (analyze_security_results_range d) as S.
  pose proof (analyze_hipaa_results_le d) as HL.
  pose proof (analyze_performance_results_range d) as P.
  pose proof (analyze_integration_results_range d) as I.
  repeat (split; [tauto|]). rewrite weighted_score. lra.
Qed.

(** [analyze_security_results] grants 40 points for security features
    whatever was measured: when both of its files can be read the score
    is at least 40, even if no header was found; when one of them cannot
    be read the score is 0. *)
Theorem security_score_floor d :
  (security_headers_txt d <> None -> security_headers_raw_txt d <> None ->
   40 <= analyze_security_results d <= 100)
  /\ (security_headers_txt d = None \/ security_headers_raw_txt d = None ->
      analyze_security_results d = 0).
Proof.
  unfold analyze_security_results. split.
  - intros A B.
    destruct (security_headers_txt d) as [content|]; [|congruence].
    destruct (security_headers_raw_txt d) as [raw|]; [|congruence].
    score_cases; rates;
      (split; [apply py_min_ge|apply py_min_le_r]); linear.
  - intros [A|A]; rewrite A; [reflexivity|].
    destruct (security_headers_txt d); reflexivity.
Qed.

(** When the k6 output cannot be read, [analyze_performance_results]
    falls back on the curl result and returns 85, 60 or 50, and 50 when
    that file cannot be read either: missing performance data never
    scores less than 50. *)
Theorem performance_fallback_scores d :
  performance_output_txt d = None ->
  (analyze_performance_results d = 85
   \/ analyze_performance_results d = 60
   \/ analyze_performance_results d = 50)
  /\ (deployment_accessibility_txt d = None ->
      analyze_performance_results d = 50).
Proof.
  intro K. unfold analyze_performance_results, k6_score, curl_score.
  rewrite K. split.
  - score_cases; cbv; tauto.
  - intros ->. reflexivity.
Qed.

Lemma performance_fallback_scores_witness :
  performance_output_txt Scenario.failed_run = None
  /\ analyze_performance_results Scenario.failed_run = 50.
Proof.
  split; [reflexivity|].
  apply (performance_fallback_scores Scenario.failed_run); reflexivity.
Defined.

(** A hipaa_tests.json that does not report success earns the fixed 70
    points of [analyze_hipaa_results] whatever its counts say; with the
    endpoint part the score is between 70 and 100, and it is 70 when
    the endpoint file cannot be read. *)
Theorem hipaa_partial_credit d members :
  hipaa_tests_json d = Some (Some (JObj members)) ->
  json_truthy (match assoc "success" members with
               | Some v => v
               | None => JBool false
               end) = false ->
  70 <= analyze_hipaa_results d <= 100
  /\ (hipaa_endpoints_txt d = None -> analyze_hipaa_results d == 70).
Proof.
  intros J S. unfold analyze_hipaa_results, hipaa_test_score. rewrite J.
  cbn [json_get]. rewrite S. split.
  - split; [|apply py_min_le_r].
    apply py_min_ge; [|lra].
    eapply Qle_trans; [|apply hipaa_endpoint_score_ge]. lra.
  - intro E. unfold hipaa_endpoint_score. rewrite E. reflexivity.
Qed.

Lemma hipaa_partial_credit_witness :
  analyze_hipaa_results Scenario.failed_run == 70.
Proof.
  eapply (hipaa_partial_credit Scenario.failed_run); reflexivity.
Defined.

Lemma filter_all {A} (f : A -> bool) l :
  List.length (filter f l) = List.length l <-> forallb f l = true.
Proof.
  induction l as [|a l IH]; simpl; [tauto|].
  destruct (f a); simpl.
  - rewrite <- IH. split; [intro H; injection H; auto|intros ->; reflexivity].
  - split; [|discriminate]. intro H.
    pose proof (filter_length_le f l). lia.
Qed.

Lemma filter_none {A} (f : A -> bool) l :
  List.length (filter f l) = O <-> forallb (fun x => negb (f x)) l = true.
Proof.
  induction l as [|a l IH]; simpl; [tauto|].
  destruct (f a); simpl; [split; discriminate|assumption].
Qed.

Lemma len_eq {A B} (l : list A) (l' : list B) :
  len l == len l' <-> List.length l = List.length l'.
Proof.
  unfold len. rewrite inject_Z_injective. split; [apply Nat2Z.inj|].
  intros ->. reflexivity.
Qed.

Lemma rate_full x y : 0 < y -> (x / y * 100 == 100 <-> x == y).
Proof.
  intro Y. assert (~ y == 0) as N by lra. split; intro H.
  - assert (y * (x / y) == x) as K by (apply Qmult_div_r; assumption).
    assert (x / y == 1) as R by lra. rewrite R in K. lra.
  - rewrite H. field. assumption.
Qed.

Lemma rate_zero x y : 0 < y -> (x / y * 100 == 0 <-> x == 0).
Proof.
  intro Y. assert (~ y == 0) as N by lra. split; intro H.
  - assert (y * (x / y) == x) as K by (apply Qmult_div_r; assumption).
    assert (x / y == 0) as R by lra. rewrite R in K. lra.
  - rewrite H. field. assumption.
Qed.

(** [analyze_integration_results], on a file with at least one
    endpoint or database line: the score is 100 exactly when every such
    line reports status 200 or 401, and 0 exactly when none does. *)
Theorem integration_score_extremes d content :
  integration_tests_txt d = Some content ->
  let integration_lines :=
    filter (fun line => contains "ENDPOINT:" line || contains "DB_TEST" line)
           (split_lines content) in
  integration_lines <> [] ->
  (analyze_integration_results d == 100
   <-> forallb endpoint_ok integration_lines = true)
  /\ (analyze_integration_results d == 0
      <-> forallb (fun line => negb (endpoint_ok line)) integration_lines
          = true).
Proof.
  intros E lines N. unfold analyze_integration_results. rewrite E.
  fold lines.
  assert (0 < len lines) as P.
  { destruct lines; [congruence|]. unfold len, Qlt. simpl. lia. }
  assert (Qlt_bool 0 (len lines) = true) as B.
  { unfold Qlt_bool. destruct (Qle_bool (len lines) 0) eqn:L; [|reflexivity].
    apply Qle_bool_iff in L. lra. }
  rewrite B. split.
  - rewrite (rate_full _ _ P), len_eq. apply filter_all.
  - rewrite (rate_zero _ _ P).
    change 0 with (len (@nil string)). rewrite len_eq. apply filter_none.
Qed.

Lemma integration_score_extremes_witness :
  analyze_integration_results Scenario.perfect_results == 100.
Proof.
  eapply (integration_score_extremes Scenario.perfect_results);
    [reflexivity|discriminate|reflexivity].
Defined.

(** [calculate_confidence_score] returns, next to the score, one entry
    per category in the order of [self.scores]; the contributions of the
    entries add up to the score, each is the score of its category
    times its weight, and the weights listed add up to 100 percent. *)
Theorem score_breakdown_accounts_for_the_score d :
  let total := fst (calculate_confidence_score d) in
  let score_breakdown := snd (calculate_confidence_score d) in
  map category score_breakdown = map fst weights
  /\ map score score_breakdown = map snd (scores d)
  /\ total == fold_left Qplus (map contribution score_breakdown) 0
  /\ (forall b, In b score_breakdown ->
                contribution b == score b * weight_percent b / 100)
  /\ fold_left Qplus (map weight_percent score_breakdown) 0 == 100.
Proof.
  unfold calculate_confidence_score, scores.
  cbn [accumulate fst snd app map fold_left].
  change (weight "deployment") with 0.20.
  change (weight "security") with 0.20.
  change (weight "hipaa") with 0.25.
  change (weight "performance") with 0.20.
  change (weight "integration") with 0.15.
  split; [reflexivity|]. split; [reflexivity|]. split; [reflexivity|].
  split; [|reflexivity].
  intros b [<-|[<-|[<-|[<-|[<-|[]]]]]]; cbn [contribution score weight_percent];
    linear.
Qed.

(** The score [main] sums up for the console is the score of the
    report. *)
Lemma main_confidence_score_eq d :
  main_confidence_score d == fst (calculate_confidence_score d).
Proof.
  unfold main_confidence_score, calculate_confidence_score, scores.
  cbn [accumulate fold_left fst snd]. reflexivity.
Qed.

(** [main] returns [True] (Phase 2 ready) only if the score is at least
    95, and that takes at least 75 points in each of deployment,
    security and performance, 80 in hipaa and 66 in integration; so it
    takes every result file but the k6 output and the hipaa endpoint
    list: a category whose file cannot be read scores 0. *)
Theorem phase_2_ready_needs_every_category d :
  main d true = Some true ->
  (95 <= fst (calculate_confidence_score d)
   /\ 75 <= analyze_deployment_results d
   /\ 75 <= analyze_security_results d
   /\ 80 <= analyze_hipaa_results d
   /\ 75 <= analyze_performance_results d
   /\ 66 <= analyze_integration_results d)
  /\ deployment_accessibility_txt d <> None
  /\ api_endpoints_txt d <> None
  /\ security_headers_txt d <> None
  /\ security_headers_raw_txt d <> None
  /\ hipaa_tests_json d <> None
  /\ integration_tests_txt d <> None.
Proof.
  unfold main. intro H. injection H as H. apply Qle_bool_iff in H.
  rewrite main_confidence_score_eq in H.
  pose proof (analyze_deployment_results_range d) as D.
  pose proof (analyze_security_results_range d) as S.
  pose proof (analyze_hipaa_results_le d) as HL.
  pose proof (analyze_performance_results_range d) as P.
  pose proof (analyze_integration_results_range d) as I.
  pose proof H as W. rewrite weighted_score in W.
  assert (75 <= analyze_deployment_results d) as D' by lra.
  assert (75 <= analyze_security_results d) as S' by lra.
  assert (80 <= analyze_hipaa_results d) as H' by lra.
  assert (66 <= analyze_integration_results d) as I' by lra.
  split; [repeat (split; [lra|]); lra|].
  repeat split; intro E.
  - unfold analyze_deployment_results in D'. rewrite E in D'. lra.
  - unfold analyze_deployment_results in D'. rewrite E in D'.
    revert D'. score_cases; lra.
  - unfold analyze_security_results in S'. rewrite E in S'. lra.
  - unfold analyze_security_results in S'. rewrite E in S'.
    destruct (security_headers_txt d); lra.
  - unfold analyze_hipaa_results in H'. rewrite E in H'. lra.
  - unfold analyze_integration_results in I'. rewrite E in I'. lra.
Qed.

Lemma phase_2_ready_needs_every_category_witness :
  main Scenario.perfect_results true = Some true
  /\ 95 <= fst (calculate_confidence_score Scenario.perfect_results).
Proof.
  split; [vm_compute; reflexivity|].
  apply (phase_2_ready_needs_every_category Scenario.perfect_results).
  vm_compute. reflexivity.
Defined.

End ConfidenceScore.



